(** * mPass: credential registry, nullifier ledger and proof gateway

    A shallow embedding of the on-chain credential-state engine
    ([MPassRegistryV2], [MPassVerifierV2], [MPassAgeVerifier]) and of the
    circuit templates it is paired with ([merkle.circom],
    [nullifier.circom], [age_proof_v2.circom]).

    Conventions.
    - [uint256], [bytes32], [address], [uint64], [uint8] values are natural
      numbers of type [N]; the only narrowing conversion in the contracts,
      [uint64(block.timestamp)], is written out as a reduction modulo 2^64.
      [bytes32(x)] on a [uint256] is the identity on the 256-bit value.
    - A Solidity [mapping(K => bool)] is a finite map read with default
      [false].
    - A transaction is a function from the registry storage to either a
      revert or a result, the new storage and the events emitted; a revert
      rolls the storage back.
    - Signals of a circuit are integers reduced modulo the BN254 scalar
      field prime. *)

From Stdlib Require Import ZArith NArith List Lia Bool String.
From stdpp Require Import base option list gmap relations.
Import ListNotations.

Local Open Scope N_scope.

(** ** Reverts, events and the transaction monad *)

(** One constructor per [require] message of the contracts, plus the
    compiler-inserted panics. *)
Inductive Error : Type :=
  | NotOwner                       (* "Not owner" *)
  | NotAuthorizedIssuer            (* "Not authorized issuer" *)
  | NotAuthorizedUpdater           (* "Not authorized updater" *)
  | InvalidAddress                 (* "Invalid address" *)
  | AlreadyRegistered              (* "Already registered" *)
  | NotRegistered                  (* "Not registered" *)
  | AlreadyRevoked                 (* "Already revoked" *)
  | NullifierAlreadyUsed           (* "Nullifier already used" *)
  | NullifierAlreadyUsedForThisEvent (* "Nullifier already used for this event" *)
  | AgeVerifierNotSet              (* "Age verifier not set" *)
  | PassportVerifierNotSet         (* "Passport verifier not set" *)
  | ProofTooShort                  (* "Proof too short" *)
  | InvalidPublicInputs            (* "Invalid public inputs" *)
  | AgeBelowMinimum                (* "Age below minimum" *)
  | InvalidRegistryRoot            (* "Invalid registry root" *)
  | InvalidRevocationRoot          (* "Invalid revocation root" *)
  | EventIdMismatch                (* "Event ID mismatch" *)
  | InvalidProof                   (* "Invalid proof" *)
  | NullifierAlreadyUsedForEvent   (* "Nullifier already used for event" *)
  | NullifierUsedForEvent          (* "Nullifier used for event" *)
  | AgeRequirementNotMet           (* "Age requirement not met" *)
  | PanicArithmetic                (* Panic(0x11): checked subtraction underflow *)
  | PanicIndex                     (* Panic(0x32): array index out of bounds *)
  | PanicDecode.                   (* abi.decode of a malformed return value *)

(** The error kinds of the engine's taxonomy. *)
Inductive ErrorKind : Type :=
  | AuthorizationError
  | StateConflictError
  | FreshnessError
  | CryptographicInvalidError
  | MalformedInputError
  | ConfigurationError.

Definition kind_of (e : Error) : ErrorKind :=
  match e with
  | NotOwner | NotAuthorizedIssuer | NotAuthorizedUpdater => AuthorizationError
  | AlreadyRegistered | NotRegistered | AlreadyRevoked
  | NullifierAlreadyUsed | NullifierAlreadyUsedForThisEvent
  | NullifierAlreadyUsedForEvent | NullifierUsedForEvent => StateConflictError
  | InvalidRegistryRoot | InvalidRevocationRoot | EventIdMismatch => FreshnessError
  | InvalidProof => CryptographicInvalidError
  | InvalidAddress | ProofTooShort | InvalidPublicInputs | AgeBelowMinimum
  | AgeRequirementNotMet | PanicArithmetic | PanicIndex | PanicDecode =>
      MalformedInputError
  | AgeVerifierNotSet | PassportVerifierNotSet => ConfigurationError
  end.

Inductive Event : Type :=
  | RootsUpdated (registryRoot revocationRoot timestamp : N)
  | NullifierUsed (nullifier user : N)
  | EventNullifierUsed (eventId nullifier user : N)
  | CredentialRegistered (commitment issuer : N)
  | CredentialRevoked (commitment issuer : N)
  | IssuerAdded (issuer : N)
  | IssuerRemoved (issuer : N)
  | ProofVerified (user proofType nullifier eventId : N).

Inductive Result (A : Type) : Type :=
  | Ok (a : A)
  | Revert (e : Error).
Arguments Ok {A} a.
Arguments Revert {A} e.

(** Read of a [mapping(K => bool)]: absent keys read as [false]. *)
Definition mget (m : gmap N bool) (k : N) : bool := default false (m !! k).

(** Read of a nested [mapping(uint256 => mapping(bytes32 => bool))]. *)
Definition mget2 (m : gmap N (gmap N bool)) (k1 k2 : N) : bool :=
  mget (default ∅ (m !! k1)) k2.

Definition mset2 (m : gmap N (gmap N bool)) (k1 k2 : N) (v : bool)
  : gmap N (gmap N bool) :=
  <[k1 := <[k2 := v]> (default ∅ (m !! k1))]> m.

(** ** MPassRegistryV2 *)

Module RegistryV2.

Record CredentialRoots : Type := {
  registryRoot : N;
  revocationRoot : N;
  updatedAt : N
}.

Record State : Type := {
  owner : N;
  authorizedIssuers : gmap N bool;
  authorizedUpdaters : gmap N bool;
  roots : CredentialRoots;
  nullifierUsed : gmap N bool;
  eventNullifierUsed : gmap N (gmap N bool);
  credentialExists : gmap N bool;
  credentialRevoked : gmap N bool
}.

Definition set_owner (a : N) (s : State) : State :=
  {| owner := a; authorizedIssuers := authorizedIssuers s;
     authorizedUpdaters := authorizedUpdaters s; roots := roots s;
     nullifierUsed := nullifierUsed s;
     eventNullifierUsed := eventNullifierUsed s;
     credentialExists := credentialExists s;
     credentialRevoked := credentialRevoked s |}.

Definition set_issuer (a : N) (v : bool) (s : State) : State :=
  {| owner := owner s; authorizedIssuers := <[a := v]> (authorizedIssuers s);
     authorizedUpdaters := authorizedUpdaters s; roots := roots s;
     nullifierUsed := nullifierUsed s;
     eventNullifierUsed := eventNullifierUsed s;
     credentialExists := credentialExists s;
     credentialRevoked := credentialRevoked s |}.

Definition set_updater (a : N) (v : bool) (s : State) : State :=
  {| owner := owner s; authorizedIssuers := authorizedIssuers s;
     authorizedUpdaters := <[a := v]> (authorizedUpdaters s); roots := roots s;
     nullifierUsed := nullifierUsed s;
     eventNullifierUsed := eventNullifierUsed s;
     credentialExists := credentialExists s;
     credentialRevoked := credentialRevoked s |}.

Definition set_roots (r : CredentialRoots) (s : State) : State :=
  {| owner := owner s; authorizedIssuers := authorizedIssuers s;
     authorizedUpdaters := authorizedUpdaters s; roots := r;
     nullifierUsed := nullifierUsed s;
     eventNullifierUsed := eventNullifierUsed s;
     credentialExists := credentialExists s;
     credentialRevoked := credentialRevoked s |}.

Definition set_nullifierUsed (n : N) (s : State) : State :=
  {| owner := owner s; authorizedIssuers := authorizedIssuers s;
     authorizedUpdaters := authorizedUpdaters s; roots := roots s;
     nullifierUsed := <[n := true]> (nullifierUsed s);
     eventNullifierUsed := eventNullifierUsed s;
     credentialExists := credentialExists s;
     credentialRevoked := credentialRevoked s |}.

Definition set_eventNullifierUsed (e n : N) (s : State) : State :=
  {| owner := owner s; authorizedIssuers := authorizedIssuers s;
     authorizedUpdaters := authorizedUpdaters s; roots := roots s;
     nullifierUsed := nullifierUsed s;
     eventNullifierUsed := mset2 (eventNullifierUsed s) e n true;
     credentialExists := credentialExists s;
     credentialRevoked := credentialRevoked s |}.

Definition set_credentialExists (c : N) (s : State) : State :=
  {| owner := owner s; authorizedIssuers := authorizedIssuers s;
     authorizedUpdaters := authorizedUpdaters s; roots := roots s;
     nullifierUsed := nullifierUsed s;
     eventNullifierUsed := eventNullifierUsed s;
     credentialExists := <[c := true]> (credentialExists s);
     credentialRevoked := credentialRevoked s |}.

Definition set_credentialRevoked (c : N) (s : State) : State :=
  {| owner := owner s; authorizedIssuers := authorizedIssuers s;
     authorizedUpdaters := authorizedUpdaters s; roots := roots s;
     nullifierUsed := nullifierUsed s;
     eventNullifierUsed := eventNullifierUsed s;
     credentialExists := credentialExists s;
     credentialRevoked := <[c := true]> (credentialRevoked s) |}.

End RegistryV2.

(** A transaction against the registry storage. *)
Definition Tx (A : Type) : Type :=
  RegistryV2.State -> Result (A * RegistryV2.State * list Event).

Definition ret {A} (a : A) : Tx A := fun s => Ok (a, s, []).

Definition bind {A B} (m : Tx A) (f : A -> Tx B) : Tx B :=
  fun s =>
    match m s with
    | Revert e => Revert e
    | Ok (a, s1, ev1) =>
        match f a s1 with
        | Revert e => Revert e
        | Ok (b, s2, ev2) => Ok (b, s2, ev1 ++ ev2)
        end
    end.

Declare Scope tx_scope.
Delimit Scope tx_scope with tx.
Notation "x <- m ;; k" := (bind m (fun x => k))
  (at level 100, m at next level, right associativity) : tx_scope.
Notation "m ;; k" := (bind m (fun _ => k))
  (at level 100, right associativity) : tx_scope.
Local Open Scope tx_scope.

Definition revert {A} (e : Error) : Tx A := fun _ => Revert e.
Definition require (c : bool) (e : Error) : Tx unit :=
  if c then ret tt else revert e.
Definition read {A} (f : RegistryV2.State -> A) : Tx A := fun s => Ok (f s, s, []).
Definition modify (f : RegistryV2.State -> RegistryV2.State) : Tx unit :=
  fun s => Ok (tt, f s, []).
Definition emit (e : Event) : Tx unit := fun s => Ok (tt, s, [e]).
Definition lift {A} (r : Result A) : Tx A :=
  fun s => match r with Ok a => Ok (a, s, []) | Revert e => Revert e end.

(** [for (uint256 i = 0; i < xs.length; i++) body(xs[i])] *)
Fixpoint for_each {A} (xs : list A) (body : A -> Tx unit) : Tx unit :=
  match xs with
  | [] => ret tt
  | x :: rest => body x ;; for_each rest body
  end.

(** Storage after the transaction: a revert leaves it as it was. *)
Definition run {A} (tx : Tx A) (s : RegistryV2.State) : RegistryV2.State :=
  match tx s with
  | Ok (_, s', _) => s'
  | Revert _ => s
  end.

Definition outcome {A} (tx : Tx A) (s : RegistryV2.State) : Result A :=
  match tx s with
  | Ok (a, _, _) => Ok a
  | Revert e => Revert e
  end.

Module Registry.
Import RegistryV2.

Definition _checkOwner (sender : N) : Tx unit :=
  o <- read owner ;;
  require (sender =? o) NotOwner.

Definition _checkIssuer (sender : N) : Tx unit :=
  iss <- read authorizedIssuers ;;
  require (mget iss sender) NotAuthorizedIssuer.

Definition _checkUpdater (sender : N) : Tx unit :=
  upd <- read authorizedUpdaters ;;
  iss <- read authorizedIssuers ;;
  require (mget upd sender || mget iss sender) NotAuthorizedUpdater.

(** State left by the constructor when deployed by [deployer]. *)
Definition constructor (deployer : N) : State :=
  {| owner := deployer;
     authorizedIssuers := {[ deployer := true ]};
     authorizedUpdaters := {[ deployer := true ]};
     roots := {| registryRoot := 0; revocationRoot := 0; updatedAt := 0 |};
     nullifierUsed := ∅;
     eventNullifierUsed := ∅;
     credentialExists := ∅;
     credentialRevoked := ∅ |}.

Definition addIssuer (sender issuer : N) : Tx unit :=
  _checkOwner sender ;;
  modify (set_issuer issuer true) ;;
  emit (IssuerAdded issuer).

Definition removeIssuer (sender issuer : N) : Tx unit :=
  _checkOwner sender ;;
  modify (set_issuer issuer false) ;;
  emit (IssuerRemoved issuer).

Definition addUpdater (sender updater : N) : Tx unit :=
  _checkOwner sender ;;
  modify (set_updater updater true).

Definition removeUpdater (sender updater : N) : Tx unit :=
  _checkOwner sender ;;
  modify (set_updater updater false).

Definition transferOwnership (sender newOwner : N) : Tx unit :=
  _checkOwner sender ;;
  require (negb (newOwner =? 0)) InvalidAddress ;;
  modify (set_owner newOwner).

Definition updateRoots (sender now registryRoot revocationRoot : N) : Tx unit :=
  _checkUpdater sender ;;
  modify (set_roots {| registryRoot := registryRoot;
                      revocationRoot := revocationRoot;
                      updatedAt := now mod 2 ^ 64 |}) ;;
  emit (RootsUpdated registryRoot revocationRoot (now mod 2 ^ 64)).

Definition getRoots : Tx (N * N * N) :=
  r <- read roots ;;
  ret (registryRoot r, revocationRoot r, updatedAt r).

Definition registerCredential (sender commitment : N) : Tx unit :=
  _checkIssuer sender ;;
  ex <- read credentialExists ;;
  require (negb (mget ex commitment)) AlreadyRegistered ;;
  modify (set_credentialExists commitment) ;;
  emit (CredentialRegistered commitment sender).

Definition revokeCredential (sender commitment : N) : Tx unit :=
  _checkIssuer sender ;;
  ex <- read credentialExists ;;
  require (mget ex commitment) NotRegistered ;;
  rv <- read credentialRevoked ;;
  require (negb (mget rv commitment)) AlreadyRevoked ;;
  modify (set_credentialRevoked commitment) ;;
  emit (CredentialRevoked commitment sender).

Definition isCredentialValid (s : State) (commitment : N) : bool :=
  mget (credentialExists s) commitment
  && negb (mget (credentialRevoked s) commitment).

Definition useNullifier (sender nullifier : N) : Tx unit :=
  used <- read nullifierUsed ;;
  require (negb (mget used nullifier)) NullifierAlreadyUsed ;;
  modify (set_nullifierUsed nullifier) ;;
  emit (NullifierUsed nullifier sender).

Definition useEventNullifier (sender eventId nullifier : N) : Tx unit :=
  used <- read eventNullifierUsed ;;
  require (negb (mget2 used eventId nullifier)) NullifierAlreadyUsedForThisEvent ;;
  modify (set_eventNullifierUsed eventId nullifier) ;;
  emit (EventNullifierUsed eventId nullifier sender).

Definition isNullifierUsed (s : State) (nullifier : N) : bool :=
  mget (nullifierUsed s) nullifier.

Definition isEventNullifierUsed (s : State) (eventId nullifier : N) : bool :=
  mget2 (eventNullifierUsed s) eventId nullifier.

Definition batchRegisterCredentials (sender : N) (commitments : list N) : Tx unit :=
  _checkIssuer sender ;;
  for_each commitments (fun c =>
    ex <- read credentialExists ;;
    if negb (mget ex c) then
      modify (set_credentialExists c) ;;
      emit (CredentialRegistered c sender)
    else ret tt).

Definition batchRevokeCredentials (sender : N) (commitments : list N) : Tx unit :=
  _checkIssuer sender ;;
  for_each commitments (fun c =>
    ex <- read credentialExists ;;
    rv <- read credentialRevoked ;;
    if mget ex c && negb (mget rv c) then
      modify (set_credentialRevoked c) ;;
      emit (CredentialRevoked c sender)
    else ret tt).

(** The state-changing entry points, as data. *)
Inductive Call : Type :=
  | CAddIssuer (issuer : N)
  | CRemoveIssuer (issuer : N)
  | CAddUpdater (updater : N)
  | CRemoveUpdater (updater : N)
  | CTransferOwnership (newOwner : N)
  | CUpdateRoots (registryRoot revocationRoot : N)
  | CRegisterCredential (commitment : N)
  | CRevokeCredential (commitment : N)
  | CUseNullifier (nullifier : N)
  | CUseEventNullifier (eventId nullifier : N)
  | CBatchRegisterCredentials (commitments : list N)
  | CBatchRevokeCredentials (commitments : list N).

(** Dispatch of a call sent by [sender] in a block with timestamp [now]. *)
Definition call (sender now : N) (c : Call) : Tx unit :=
  match c with
  | CAddIssuer a => addIssuer sender a
  | CRemoveIssuer a => removeIssuer sender a
  | CAddUpdater a => addUpdater sender a
  | CRemoveUpdater a => removeUpdater sender a
  | CTransferOwnership a => transferOwnership sender a
  | CUpdateRoots r v => updateRoots sender now r v
  | CRegisterCredential c => registerCredential sender c
  | CRevokeCredential c => revokeCredential sender c
  | CUseNullifier n => useNullifier sender n
  | CUseEventNullifier e n => useEventNullifier sender e n
  | CBatchRegisterCredentials cs => batchRegisterCredentials sender cs
  | CBatchRevokeCredentials cs => batchRevokeCredentials sender cs
  end.

End Registry.

(** ** Proof blobs *)

Definition bytes : Type := list Byte.byte.

(** [uint256(bytes32(b))]: the big-endian value of a 32-byte slice. *)
Definition be_N (b : bytes) : N :=
  fold_left (fun acc x => acc * 256 + Byte.to_N x) b 0.

(** [proof[from:to]] *)
Definition slice (b : bytes) (from to : nat) : bytes :=
  take (to - from) (drop from b).

Definition word_at (b : bytes) (off : nat) : N := be_N (slice b off (off + 32)).

(** The three curve points of a Groth16 proof. *)
Record G16 : Type := {
  pi_a : N * N;
  pi_b : (N * N) * (N * N);
  pi_c : N * N
}.

(** What the low-level [staticcall] to a verifier contract comes back with. *)
Inductive OracleReply : Type :=
  | CallFailed                 (* success = false *)
  | EmptyReturn                (* result.length = 0, e.g. no code at the address *)
  | ReturnedBool (b : bool)    (* a well-formed ABI-encoded bool *)
  | MalformedReturn.           (* non-empty data that is not an encoded bool *)

(** Checked [a - b] on unsigned integers. *)
Definition sub_checked (a b : N) : Result N :=
  if a <? b then Revert PanicArithmetic else Ok (a - b).

(** Bounds-checked [xs[i]]. *)
Definition index (xs : list N) (i : N) : Result N :=
  match xs !! N.to_nat i with
  | Some x => Ok x
  | None => Revert PanicIndex
  end.

Definition len (xs : list N) : N := N.of_nat (length xs).

Definition _decodeProof (proof : bytes) : Result (G16 * list N) :=
  if (length proof <? 256)%nat then Revert ProofTooShort
  else
    let inputsLength := ((length proof - 256) / 32)%nat in
    Ok ({| pi_a := (word_at proof 0, word_at proof 32);
           pi_b := ((word_at proof 64, word_at proof 96),
                    (word_at proof 128, word_at proof 160));
           pi_c := (word_at proof 192, word_at proof 224) |},
        map (fun i => word_at proof (256 + i * 32)%nat) (seq 0 inputsLength)).

(** ** MPassVerifierV2: the proof gateway *)

Module VerifierV2.

Record ProofResult : Type := {
  valid : bool;
  nullifier : N;
  blindedCommitment : N
}.

Record State : Type := {
  registry : N;
  owner : N;
  ageVerifier : N;
  identityVerifier : N;
  passportVerifier : N;
  jurisdictionVerifier : N;
  accreditedVerifier : N
}.

Definition constructor (deployer _registry : N) : State :=
  {| registry := _registry; owner := deployer; ageVerifier := 0;
     identityVerifier := 0; passportVerifier := 0;
     jurisdictionVerifier := 0; accreditedVerifier := 0 |}.

Definition setVerifiers (g : State) (sender a i p j c : N) : Result State :=
  if sender =? owner g then
    Ok {| registry := registry g; owner := owner g; ageVerifier := a;
          identityVerifier := i; passportVerifier := p;
          jurisdictionVerifier := j; accreditedVerifier := c |}
  else Revert NotOwner.

Definition setRegistry (g : State) (sender _registry : N) : Result State :=
  if sender =? owner g then
    Ok {| registry := _registry; owner := owner g;
          ageVerifier := ageVerifier g;
          identityVerifier := identityVerifier g;
          passportVerifier := passportVerifier g;
          jurisdictionVerifier := jurisdictionVerifier g;
          accreditedVerifier := accreditedVerifier g |}
  else Revert NotOwner.

Definition transferOwnership (g : State) (sender newOwner : N) : Result State :=
  if sender =? owner g then
    if newOwner =? 0 then Revert InvalidAddress
    else
      Ok {| registry := registry g; owner := newOwner;
            ageVerifier := ageVerifier g;
            identityVerifier := identityVerifier g;
            passportVerifier := passportVerifier g;
            jurisdictionVerifier := jurisdictionVerifier g;
            accreditedVerifier := accreditedVerifier g |}
  else Revert NotOwner.

Section Gateway.

(** The proof oracle: the reply of the contract at [verifier] to
    [verifyProof(a, b, c, inputs)]. *)
Variable oracle : N -> G16 -> list N -> OracleReply.

Definition _verifyGroth16 (verifier : N) (p : G16) (inputs : list N)
  : Result bool :=
  match oracle verifier p inputs with
  | CallFailed | EmptyReturn => Ok false
  | ReturnedBool b => Ok b
  | MalformedReturn => Revert PanicDecode
  end.

(** [self] is the gateway's own address, the [msg.sender] the registry
    sees; [sender] is the gateway's caller. The transaction runs against
    the storage of the registry the gateway is bound to. *)
Definition verifyAgeWithNullifier (g : State) (self sender : N)
    (minAge eventId : N) (proof : bytes) : Tx ProofResult :=
  require (negb (ageVerifier g =? 0)) AgeVerifierNotSet ;;
  d <- lift (_decodeProof proof) ;;
  let '(abc, publicInputs) := d in
  require (7 <=? len publicInputs) InvalidPublicInputs ;;
  in0 <- lift (index publicInputs 0) ;;
  require (minAge <=? in0) AgeBelowMinimum ;;
  r <- Registry.getRoots ;;
  let '(registryRoot, revocationRoot, _) := r in
  in4 <- lift (index publicInputs 4) ;;
  require (in4 =? registryRoot) InvalidRegistryRoot ;;
  in5 <- lift (index publicInputs 5) ;;
  require (in5 =? revocationRoot) InvalidRevocationRoot ;;
  in6 <- lift (index publicInputs 6) ;;
  require (in6 =? eventId) EventIdMismatch ;;
  ok <- lift (_verifyGroth16 (ageVerifier g) abc publicInputs) ;;
  require ok InvalidProof ;;
  i2 <- lift (sub_checked (len publicInputs) 2) ;;
  nullifier <- lift (index publicInputs i2) ;;
  i1 <- lift (sub_checked (len publicInputs) 1) ;;
  blinded <- lift (index publicInputs i1) ;;
  (if eventId =? 0 then
     used <- read (fun s => Registry.isNullifierUsed s nullifier) ;;
     require (negb used) NullifierAlreadyUsed ;;
     Registry.useNullifier self nullifier
   else
     used <- read (fun s => Registry.isEventNullifierUsed s eventId nullifier) ;;
     require (negb used) NullifierAlreadyUsedForEvent ;;
     Registry.useEventNullifier self eventId nullifier) ;;
  emit (ProofVerified sender 0 nullifier eventId) ;;
  ret {| valid := true; nullifier := nullifier; blindedCommitment := blinded |}.

Definition verifyPassportDisclosure (g : State) (self sender : N)
    (eventId : N) (proof : bytes) : Tx (ProofResult * N * N * N) :=
  require (negb (passportVerifier g =? 0)) PassportVerifierNotSet ;;
  d <- lift (_decodeProof proof) ;;
  let '(abc, publicInputs) := d in
  r <- Registry.getRoots ;;
  let '(registryRoot, revocationRoot, _) := r in
  in0 <- lift (index publicInputs 0) ;;
  require (in0 =? registryRoot) InvalidRegistryRoot ;;
  in1 <- lift (index publicInputs 1) ;;
  require (in1 =? revocationRoot) InvalidRevocationRoot ;;
  ok <- lift (_verifyGroth16 (passportVerifier g) abc publicInputs) ;;
  require ok InvalidProof ;;
  i5 <- lift (sub_checked (len publicInputs) 5) ;;
  nullifier <- lift (index publicInputs i5) ;;
  i4 <- lift (sub_checked (len publicInputs) 4) ;;
  commitment <- lift (index publicInputs i4) ;;
  i3 <- lift (sub_checked (len publicInputs) 3) ;;
  disclosedNationality <- lift (index publicInputs i3) ;;
  i2 <- lift (sub_checked (len publicInputs) 2) ;;
  disclosedAgeOver <- lift (index publicInputs i2) ;;
  i1 <- lift (sub_checked (len publicInputs) 1) ;;
  disclosedGender <- lift (index publicInputs i1) ;;
  (if eventId =? 0 then
     used <- read (fun s => Registry.isNullifierUsed s nullifier) ;;
     require (negb used) NullifierAlreadyUsed ;;
     Registry.useNullifier self nullifier
   else
     used <- read (fun s => Registry.isEventNullifierUsed s eventId nullifier) ;;
     require (negb used) NullifierUsedForEvent ;;
     Registry.useEventNullifier self eventId nullifier) ;;
  emit (ProofVerified sender 1 nullifier eventId) ;;
  ret ({| valid := true; nullifier := nullifier;
          blindedCommitment := commitment |},
       disclosedNationality, disclosedAgeOver, disclosedGender).

(** [external view]: decodes and asks the oracle, nothing else. *)
Definition verifyProofOnly (verifier : N) (proof : bytes) : Tx bool :=
  d <- lift (_decodeProof proof) ;;
  let '(abc, publicInputs) := d in
  lift (_verifyGroth16 verifier abc publicInputs).

(** *** The gates of each entry point before the nullifier is touched

    The prefix of [verifyAgeWithNullifier] up to and including
    [require(valid, "Invalid proof")] and the extraction of the outputs:
    it yields the nullifier and the blinded commitment the call carries. *)
Definition age_gates (g : State) (minAge eventId : N) (proof : bytes)
  : Tx (N * N) :=
  require (negb (ageVerifier g =? 0)) AgeVerifierNotSet ;;
  d <- lift (_decodeProof proof) ;;
  let '(abc, publicInputs) := d in
  require (7 <=? len publicInputs) InvalidPublicInputs ;;
  in0 <- lift (index publicInputs 0) ;;
  require (minAge <=? in0) AgeBelowMinimum ;;
  r <- Registry.getRoots ;;
  let '(registryRoot, revocationRoot, _) := r in
  in4 <- lift (index publicInputs 4) ;;
  require (in4 =? registryRoot) InvalidRegistryRoot ;;
  in5 <- lift (index publicInputs 5) ;;
  require (in5 =? revocationRoot) InvalidRevocationRoot ;;
  in6 <- lift (index publicInputs 6) ;;
  require (in6 =? eventId) EventIdMismatch ;;
  ok <- lift (_verifyGroth16 (ageVerifier g) abc publicInputs) ;;
  require ok InvalidProof ;;
  i2 <- lift (sub_checked (len publicInputs) 2) ;;
  nullifier <- lift (index publicInputs i2) ;;
  i1 <- lift (sub_checked (len publicInputs) 1) ;;
  blinded <- lift (index publicInputs i1) ;;
  ret (nullifier, blinded).

(** The same prefix of [verifyPassportDisclosure]; the caller's
    [eventId] does not occur in it. *)
Definition passport_gates (g : State) (proof : bytes)
  : Tx (N * N * N * N * N) :=
  require (negb (passportVerifier g =? 0)) PassportVerifierNotSet ;;
  d <- lift (_decodeProof proof) ;;
  let '(abc, publicInputs) := d in
  r <- Registry.getRoots ;;
  let '(registryRoot, revocationRoot, _) := r in
  in0 <- lift (index publicInputs 0) ;;
  require (in0 =? registryRoot) InvalidRegistryRoot ;;
  in1 <- lift (index publicInputs 1) ;;
  require (in1 =? revocationRoot) InvalidRevocationRoot ;;
  ok <- lift (_verifyGroth16 (passportVerifier g) abc publicInputs) ;;
  require ok InvalidProof ;;
  i5 <- lift (sub_checked (len publicInputs) 5) ;;
  nullifier <- lift (index publicInputs i5) ;;
  i4 <- lift (sub_checked (len publicInputs) 4) ;;
  commitment <- lift (index publicInputs i4) ;;
  i3 <- lift (sub_checked (len publicInputs) 3) ;;
  disclosedNationality <- lift (index publicInputs i3) ;;
  i2 <- lift (sub_checked (len publicInputs) 2) ;;
  disclosedAgeOver <- lift (index publicInputs i2) ;;
  i1 <- lift (sub_checked (len publicInputs) 1) ;;
  disclosedGender <- lift (index publicInputs i1) ;;
  ret (nullifier, commitment, disclosedNationality, disclosedAgeOver,
       disclosedGender).

(** The nullifier-consuming entry points, as data. *)
Inductive Call : Type :=
  | CVerifyAge (minAge eventId : N) (proof : bytes)
  | CVerifyPassport (eventId : N) (proof : bytes).

Definition scope_of (c : Call) : N :=
  match c with
  | CVerifyAge _ e _ => e
  | CVerifyPassport e _ => e
  end.

(** A gateway call, keeping of its return value the [ProofResult]. *)
Definition call (g : State) (self sender : N) (c : Call) : Tx ProofResult :=
  match c with
  | CVerifyAge m e p => verifyAgeWithNullifier g self sender m e p
  | CVerifyPassport e p =>
      r <- verifyPassportDisclosure g self sender e p ;;
      ret (fst (fst (fst r)))
  end.

(** The nullifier a call carries once it is through its gates. *)
Definition gates (g : State) (c : Call) : Tx N :=
  match c with
  | CVerifyAge m e p => r <- age_gates g m e p ;; ret (fst r)
  | CVerifyPassport e p =>
      r <- passport_gates g p ;; ret (fst (fst (fst (fst r))))
  end.

End Gateway.

End VerifierV2.

(** ** MPassAgeVerifier: the stand-alone age verifier *)

Module AgeVerifier.

Record State : Type := {
  nullifierUsed : gmap N bool;
  registeredCredentials : gmap N bool
}.

Inductive AgeEvent : Type :=
  | CredentialRegistered (commitment owner : N)
  | AgeVerified (nullifier minAge eventId : N)
  | NullifierConsumed (nullifier : N).

Section Wrapper.

(** [verifier.verifyProof]: the immutable Groth16 verifier deployed by
    the constructor. [_pubSignals] is a [uint[8]]. *)
Variable verifyProof : G16 -> list N -> bool.

Definition signal (pubSignals : list N) (i : nat) : N := nth i pubSignals 0.

Definition registerCredential (s : State) (sender commitment : N)
  : Result (State * list AgeEvent) :=
  if mget (registeredCredentials s) commitment then Revert AlreadyRegistered
  else Ok ({| nullifierUsed := nullifierUsed s;
              registeredCredentials :=
                <[commitment := true]> (registeredCredentials s) |},
           [CredentialRegistered commitment sender]).

Definition verifyAgeProof (s : State) (p : G16) (pubSignals : list N)
  : Result (bool * State * list AgeEvent) :=
  let commitment := signal pubSignals 0 in
  let nullifier := signal pubSignals 1 in
  let ageValid := signal pubSignals 2 in
  if mget (nullifierUsed s) nullifier then Revert NullifierAlreadyUsed
  else
    let valid := verifyProof p pubSignals in
    let '(s1, ev) :=
      if valid then
        ({| nullifierUsed := <[nullifier := true]> (nullifierUsed s);
            registeredCredentials := registeredCredentials s |},
         [NullifierConsumed nullifier;
          AgeVerified nullifier (signal pubSignals 6) (signal pubSignals 7)])
      else (s, []) in
    if ageValid =? 1 then Ok (valid, s1, ev)
    else Revert AgeRequirementNotMet.

(** [external view] *)
Definition verifyProofOnly (s : State) (p : G16) (pubSignals : list N)
  : Result (bool * State * list AgeEvent) :=
  Ok (verifyProof p pubSignals, s, []).

Definition isNullifierUsed (s : State) (nullifier : N) : bool :=
  mget (nullifierUsed s) nullifier.

Definition isCredentialRegistered (s : State) (commitment : N) : bool :=
  mget (registeredCredentials s) commitment.

(** The state-changing entry points, as data. *)
Inductive Call : Type :=
  | CRegisterCredential (commitment : N)
  | CVerifyAgeProof (p : G16) (pubSignals : list N).

(** Storage after a call from [sender]: a revert leaves it as it was. *)
Definition after (sender : N) (c : Call) (s : State) : State :=
  match c with
  | CRegisterCredential commitment =>
      match registerCredential s sender commitment with
      | Ok (s', _) => s'
      | Revert _ => s
      end
  | CVerifyAgeProof p pubSignals =>
      match verifyAgeProof s p pubSignals with
      | Ok (_, s', _) => s'
      | Revert _ => s
      end
  end.

Inductive step : State -> State -> Prop :=
  | step_call (sender : N) (c : Call) (s : State) : step s (after sender c s).

Definition steps : State -> State -> Prop := rtc step.

End Wrapper.

End AgeVerifier.

(** ** Circuit templates *)

Module Circuits.

Local Open Scope Z_scope.

(** The BN254 scalar field prime circom computes in. *)
Definition p : Z :=
  21888242871839275222246405745257275088548364400416034343698204186575808495617.

(** *** circomlib components used by the templates

    These are included from [node_modules/circomlib]; they are written
    here as the functions their constraints define. A template whose
    constraints cannot be satisfied yields [None]. *)

(** [IsZero]: [out = 1] when [in] is zero in the field, else [0]. *)
Definition IsZero (x : Z) : Z := if x mod p =? 0 then 1 else 0.

(** [IsEqual]: [IsZero] of [in[1] - in[0]]. *)
Definition IsEqual (a b : Z) : Z := IsZero (b - a).

(** [Mux1]: [out = (c[1] - c[0]) * s + c[0]]. *)
Definition Mux1 (c0 c1 s : Z) : Z := ((c1 - c0) * s + c0) mod p.

(** [MultiMux1(2)]: two [Mux1] sharing the selector. *)
Definition MultiMux1_2 (c0 c1 : Z * Z) (s : Z) : Z * Z :=
  (((snd c0 - fst c0) * s + fst c0) mod p,
   ((snd c1 - fst c1) * s + fst c1) mod p).

(** [Num2Bits(n)]: [out[i] = (in >> i) & 1] and the constraint
    [sum out[i] * 2^i === in]. *)
Definition bit_of (x : Z) (i : nat) : Z := Z.b2z (Z.testbit x (Z.of_nat i)).

Fixpoint lc1 (x : Z) (n : nat) : Z :=
  match n with
  | O => 0
  | S k => lc1 x k + bit_of x k * 2 ^ Z.of_nat k
  end.

Definition Num2Bits (n : nat) (x : Z) : option (list Z) :=
  let v := x mod p in
  if (lc1 v n - v) mod p =? 0
  then Some (map (bit_of v) (seq 0 n))
  else None.

(** [LessThan(n)]: bit [n] of [in[0] + 2^n - in[1]], negated. *)
Definition LessThan (n : nat) (a b : Z) : option Z :=
  match Num2Bits (S n) (a + 2 ^ Z.of_nat n - b) with
  | Some bits => Some ((1 - nth n bits 0) mod p)
  | None => None
  end.

(** [GreaterEqThan(n)]: [LessThan(n)] of [in[1]] and [in[0] + 1]. *)
Definition GreaterEqThan (n : nat) (a b : Z) : option Z := LessThan n b (a + 1).

Section Templates.

(** circomlib's [Poseidon(n)] on its [n] inputs. *)
Variable Poseidon : list Z -> Z.

(** *** merkle.circom *)

(** The loop of [MerkleTreeInclusionProof]: one level per sibling. *)
Fixpoint levelHashes (h : Z) (pathElements pathIndices : list Z) : option Z :=
  match pathElements, pathIndices with
  | [], [] => Some h
  | e :: es, i :: is_ =>
      if (i * (1 - i)) mod p =? 0 then
        let m := MultiMux1_2 (h, e) (e, h) i in
        levelHashes (Poseidon [fst m; snd m]) es is_
      else None
  | _, _ => None
  end.

Definition MerkleTreeInclusionProof (levels : nat) (leaf : Z)
    (pathElements pathIndices : list Z) : option Z :=
  if (length pathElements =? levels)%nat && (length pathIndices =? levels)%nat
  then levelHashes leaf pathElements pathIndices
  else None.

Definition MerkleTreeVerifier (levels : nat) (leaf : Z)
    (pathElements pathIndices : list Z) (root : Z) : option Z :=
  match MerkleTreeInclusionProof levels leaf pathElements pathIndices with
  | Some r => Some (IsEqual r root)
  | None => None
  end.

Definition SparseMerkleTreeNonInclusion (levels : nat) (key root : Z)
    (siblings : list Z) (isOld0 oldKey oldValue : Z) : option Z :=
  match Num2Bits levels key with
  | None => None
  | Some keyBits =>
      let oldLeaf := Poseidon [oldKey; oldValue] in
      let leaf := Mux1 oldLeaf 0 isOld0 in
      match MerkleTreeInclusionProof levels leaf siblings keyBits with
      | None => None
      | Some computed =>
          let rootCheck := IsEqual computed root in
          let keyNotEqual := IsEqual key oldKey in
          let keyDifferent := (1 - keyNotEqual) mod p in
          let validNonMembership :=
            (isOld0 + (1 - isOld0) * keyDifferent) mod p in
          Some ((rootCheck * validNonMembership) mod p)
      end
  end.

(** *** nullifier.circom *)

Definition GlobalNullifier (secret credentialCommitment : Z) : Z :=
  Poseidon [secret; credentialCommitment].

Definition EventBoundNullifier (secret eventId : Z) : Z :=
  Poseidon [secret; Poseidon [secret]; eventId].

Definition TimeBoundNullifier (secret credentialCommitment epoch : Z) : Z :=
  Poseidon [secret; credentialCommitment; epoch].

Definition BlindedCommitment (commitment blindingFactor : Z) : Z :=
  Poseidon [commitment; blindingFactor].

(** *** age_proof_v2.circom, step 7: the nullifier output *)

Definition isGlobal (eventId : Z) : Z := IsZero eventId.

Definition AgeProofV2_nullifier (secret credentialCommitment eventId : Z) : Z :=
  let eventNullifier := EventBoundNullifier secret eventId in
  let globalNullifier := GlobalNullifier secret credentialCommitment in
  Mux1 eventNullifier globalNullifier (isGlobal eventId).

(** The root obtained from a leaf by hashing up along the low bits of
    [key], lowest bit first: the path the non-inclusion check is meant
    to follow. *)
Fixpoint root_along (h : Z) (siblings : list Z) (key : Z) : Z :=
  match siblings with
  | [] => h
  | e :: es =>
      root_along
        (if Z.odd key then Poseidon [e mod p; h mod p]
         else Poseidon [h mod p; e mod p])
        es (Z.div2 key)
  end.

(** *** merkle.circom: [CredentialRegistryProof] *)

Definition CredentialRegistryProof (registryLevels revocationLevels : nat)
    (credentialHash registryRoot : Z) (registryPath registryIndices : list Z)
    (revocationRoot : Z) (revocationSiblings : list Z)
    (isRevocationEmpty revocationOldKey revocationOldValue : Z) : option Z :=
  match MerkleTreeVerifier registryLevels credentialHash registryPath
          registryIndices registryRoot with
  | None => None
  | Some registryValid =>
      match SparseMerkleTreeNonInclusion revocationLevels credentialHash
              revocationRoot revocationSiblings isRevocationEmpty
              revocationOldKey revocationOldValue with
      | None => None
      | Some revocationValid => Some ((registryValid * revocationValid) mod p)
      end
  end.

(** *** age_proof_v2.circom, steps 5 and 6: the age comparison

    The value of [ageCheck.out]; the template goes on to constrain it to 1. *)
Definition AgeProofV2_ageCheck
    (birthYear birthMonth birthDay minAge currentYear currentMonth currentDay : Z)
  : option Z :=
  let baseAge := (currentYear - birthYear) mod p in
  match LessThan 8 currentMonth birthMonth with
  | None => None
  | Some monthLess =>
      match LessThan 8 currentDay birthDay with
      | None => None
      | Some dayLess =>
          let monthEqual := IsEqual currentMonth birthMonth in
          let birthdayNotPassed := (monthLess + monthEqual * dayLess) mod p in
          let actualAge := (baseAge - birthdayNotPassed) mod p in
          GreaterEqThan 8 actualAge minAge
      end
  end.

(** *** age_proof_v2.circom: the whole template

    The outputs [(nullifier, blindedCommitment, ageValid)] of a satisfying
    assignment; [None] when one of the three [=== 1] constraints or a
    component's own constraint fails. *)
Definition AgeProofV2 (registryLevels revocationLevels : nat)
    (secret birthYear birthMonth birthDay blindingFactor : Z)
    (registryPathElements registryPathIndices : list Z)
    (revocationSiblings : list Z)
    (isRevocationEmpty revocationOldKey revocationOldValue : Z)
    (minAge currentYear currentMonth currentDay : Z)
    (registryRoot revocationRoot eventId : Z) : option (Z * Z * Z) :=
  let credentialCommitment := Poseidon [birthYear; birthMonth; birthDay; secret] in
  let blindedCommitment := BlindedCommitment credentialCommitment blindingFactor in
  match MerkleTreeVerifier registryLevels credentialCommitment
          registryPathElements registryPathIndices registryRoot with
  | None => None
  | Some registryValid =>
      if negb (registryValid =? 1) then None else
      match SparseMerkleTreeNonInclusion revocationLevels credentialCommitment
              revocationRoot revocationSiblings isRevocationEmpty
              revocationOldKey revocationOldValue with
      | None => None
      | Some revocationValid =>
          if negb (revocationValid =? 1) then None else
          match AgeProofV2_ageCheck birthYear birthMonth birthDay minAge
                  currentYear currentMonth currentDay with
          | None => None
          | Some ageValid =>
              if negb (ageValid =? 1) then None else
              Some (AgeProofV2_nullifier secret credentialCommitment eventId,
                    blindedCommitment, ageValid)
          end
      end
  end.

(** The calendar age the circuit is meant to compute: the difference of
    the years, less one when the birthday has not yet come this year. *)
Definition calendar_age
    (birthYear birthMonth birthDay currentYear currentMonth currentDay : Z) : Z :=
  currentYear - birthYear
  - (if (currentMonth <? birthMonth)
        || ((currentMonth =? birthMonth) && (currentDay <? birthDay))
     then 1 else 0).

End Templates.

End Circuits.

(** ** The system: reachable registry storage *)

(** The ledger partition the gateway reads and writes for a scope: the
    global map for scope 0, the per-event map otherwise. *)
Definition consumed (s : RegistryV2.State) (scope nullifier : N) : bool :=
  if scope =? 0 then Registry.isNullifierUsed s nullifier
  else Registry.isEventNullifierUsed s scope nullifier.

Definition succeeds {A} (tx : Tx A) (s : RegistryV2.State) : bool :=
  match tx s with Ok _ => true | Revert _ => false end.

(** The nullifier slot of the statement a call carries, read off the proof
    blob the way the entry point does. *)
Definition carried_nullifier (c : VerifierV2.Call) : option N :=
  match c with
  | VerifierV2.CVerifyAge _ _ proof =>
      match _decodeProof proof with
      | Ok (_, publicInputs) =>
          if len publicInputs <? 2 then None
          else publicInputs !! N.to_nat (len publicInputs - 2)
      | Revert _ => None
      end
  | VerifierV2.CVerifyPassport _ proof =>
      match _decodeProof proof with
      | Ok (_, publicInputs) =>
          if len publicInputs <? 5 then None
          else publicInputs !! N.to_nat (len publicInputs - 5)
      | Revert _ => None
      end
  end.

Section System.

Variable oracle : N -> G16 -> list N -> OracleReply.

(** One transaction: any registry entry point from any sender, or a
    gateway verification under any gateway configuration. *)
Inductive step : RegistryV2.State -> RegistryV2.State -> Prop :=
  | step_registry (sender now : N) (c : Registry.Call) (s : RegistryV2.State) :
      step s (run (Registry.call sender now c) s)
  | step_gateway (g : VerifierV2.State) (self sender : N)
      (c : VerifierV2.Call) (s : RegistryV2.State) :
      step s (run (VerifierV2.call oracle g self sender c) s).

Definition steps : RegistryV2.State -> RegistryV2.State -> Prop := rtc step.

Definition reachable (s : RegistryV2.State) : Prop :=
  exists deployer, steps (Registry.constructor deployer) s.

End System.

(** Single-item call, skipped when it reverts: the per-element behaviour
    of a batch stated through the single-item entry point. *)
Definition skip_on_revert (tx : Tx unit) : Tx unit :=
  fun s => match tx s with
           | Ok r => Ok r
           | Revert _ => Ok (tt, s, [])
           end.

(** ** Fixtures *)

Module Fixtures.

Definition byte_of (n : N) : Byte.byte :=
  match Byte.of_N n with Some b => b | None => Byte.x00 end.

(** The 32-byte big-endian encoding of a word. *)
Definition word_bytes (w : N) : bytes :=
  map (fun i => byte_of ((w / 256 ^ N.of_nat (31 - i)) mod 256)) (seq 0 32).

(** A proof blob: eight zero words for the curve points, then the inputs. *)
Definition blob (inputs : list N) : bytes :=
  repeat Byte.x00 256 ++ concat (map word_bytes inputs).

Definition accept_all : N -> G16 -> list N -> OracleReply :=
  fun _ _ _ => ReturnedBool true.

Definition deployer : N := 1.
Definition stranger : N := 3.
Definition gateway_address : N := 50.

Definition registry0 : RegistryV2.State := Registry.constructor deployer.

Definition gateway0 : VerifierV2.State :=
  {| VerifierV2.registry := 40; VerifierV2.owner := deployer;
     VerifierV2.ageVerifier := 60; VerifierV2.identityVerifier := 61;
     VerifierV2.passportVerifier := 62;
     VerifierV2.jurisdictionVerifier := 63;
     VerifierV2.accreditedVerifier := 64 |}.

(** Age statement [minAge, year, month, day, registryRoot,
    revocationRoot, eventId] followed by the outputs [nullifier,
    blindedCommitment]. *)
Definition age_statement (registryRoot revocationRoot eventId nullifier : N)
  : bytes :=
  blob [18; 2026; 11; 2; registryRoot; revocationRoot; eventId; nullifier; 555].

(** Passport statement [registryRoot, revocationRoot, scope] followed by
    the outputs [nullifier, commitment, nationality, ageOver, gender]. *)
Definition passport_statement (registryRoot revocationRoot scope nullifier : N)
  : bytes :=
  blob [registryRoot; revocationRoot; scope; nullifier; 777; 0; 18; 0].

End Fixtures.

(** ** Partition selection *)

Inductive Partition : Type :=
  | GlobalPartition
  | EventPartition.

(** The gateway's choice of ledger, [if (eventId == 0)]. *)
Definition gateway_selection (eventId : N) : Partition :=
  if eventId =? 0 then GlobalPartition else EventPartition.

(** The circuit's choice of derivation: the selector [isGlobal.out] that
    drives [nullifierMux]. *)
Definition circuit_selection (eventId : Z) : Partition :=
  if (Circuits.isGlobal eventId =? 1)%Z then GlobalPartition else EventPartition.

(** ** Vocabulary of the properties *)

(** A transaction preserves [P] when every successful run carries [P]
    from the storage before to the storage after. *)
Definition preserves {A} (P : RegistryV2.State -> Prop) (tx : Tx A) : Prop :=
  forall s a s' ev, tx s = Ok (a, s', ev) -> P s -> P s'.

(** A transaction is a view when a successful run neither writes nor emits. *)
Definition view {A} (tx : Tx A) : Prop :=
  forall s a s' ev, tx s = Ok (a, s', ev) -> s' = s /\ ev = [].

(** What a storage-local property has to survive: the storage writes. *)
Definition stable (P : RegistryV2.State -> Prop) : Prop :=
  (forall a s, P s -> P (RegistryV2.set_owner a s)) /\
  (forall a v s, P s -> P (RegistryV2.set_issuer a v s)) /\
  (forall a v s, P s -> P (RegistryV2.set_updater a v s)) /\
  (forall r s, P s -> P (RegistryV2.set_roots r s)) /\
  (forall n s, P s -> P (RegistryV2.set_nullifierUsed n s)) /\
  (forall e n s, P s -> P (RegistryV2.set_eventNullifierUsed e n s)) /\
  (forall c s, P s -> P (RegistryV2.set_credentialExists c s)) /\
  (forall c s, P s -> P (RegistryV2.set_credentialRevoked c s)).

(** The storage write of step 5 for scope [e] and nullifier [n]. *)
Definition mark (e n : N) (s : RegistryV2.State) : RegistryV2.State :=
  if e =? 0 then RegistryV2.set_nullifierUsed n s
  else RegistryV2.set_eventNullifierUsed e n s.

(** The message with which an entry point rejects a consumed nullifier. *)
Definition conflict_error (c : VerifierV2.Call) : Error :=
  if VerifierV2.scope_of c =? 0 then NullifierAlreadyUsed
  else match c with
       | VerifierV2.CVerifyAge _ _ _ => NullifierAlreadyUsedForEvent
       | VerifierV2.CVerifyPassport _ _ => NullifierUsedForEvent
       end.

(** Step 5 of an entry point for the nullifier [n] the gates let
    through; [err] is the message of the event-partition check. *)
Definition consume (self eventId n : N) (err : Error) : Tx unit :=
  if eventId =? 0 then
    used <- read (fun s => Registry.isNullifierUsed s n) ;;
    require (negb used) NullifierAlreadyUsed ;;
    Registry.useNullifier self n
  else
    used <- read (fun s => Registry.isEventNullifierUsed s eventId n) ;;
    require (negb used) err ;;
    Registry.useEventNullifier self eventId n.

(** A transaction whose result depends on the storage through the roots
    record only. *)
Definition roots_only {A} (tx : Tx A) : Prop :=
  forall s s', RegistryV2.roots s = RegistryV2.roots s' ->
               outcome tx s = outcome tx s'.

(** Every revoked commitment is a registered one. *)
Definition revoked_registered (s : RegistryV2.State) : Prop :=
  forall c, mget (RegistryV2.credentialRevoked s) c = true ->
            mget (RegistryV2.credentialExists s) c = true.


(** ** Packed proofs *)

(** The layout [_decodeProof] reads: the eight words of the three curve
    points, then one word per public input, each word as 32 big-endian
    bytes. *)
Definition pack_proof (abc : G16) (inputs : list N) : bytes :=
  concat (map Fixtures.word_bytes
            ([fst (pi_a abc); snd (pi_a abc);
              fst (fst (pi_b abc)); snd (fst (pi_b abc));
              fst (snd (pi_b abc)); snd (snd (pi_b abc));
              fst (pi_c abc); snd (pi_c abc)] ++ inputs)).

(** The words of the curve points. *)
Definition G16_words (abc : G16) : list N :=
  [fst (pi_a abc); snd (pi_a abc);
   fst (fst (pi_b abc)); snd (fst (pi_b abc));
   fst (snd (pi_b abc)); snd (snd (pi_b abc));
   fst (pi_c abc); snd (pi_c abc)].

(** A small stand-in for Poseidon, to run the templates on concrete
    inputs: the sum of the inputs plus 3, reduced to three bits. *)
Definition sample_hash (l : list Z) : Z := (fold_right Z.add 3 l mod 8)%Z.

(** * Properties *)

(** ** Reasoning about transactions *)

Lemma bind_ok {A B} (m : Tx A) (f : A -> Tx B) s b s2 ev :
  bind m f s = Ok (b, s2, ev) ->
  exists a s1 ev1 ev2,
    m s = Ok (a, s1, ev1) /\ f a s1 = Ok (b, s2, ev2) /\ ev = ev1 ++ ev2.
Proof.
  unfold bind. destruct (m s) as [[[a s1] ev1]|e]; [|discriminate].
  destruct (f a s1) as [[[b' s2'] ev2]|e] eqn:Hf; [|discriminate].
  intros [= -> -> <-]. by exists a, s1, ev1, ev2.
Qed.

Lemma bind_revert_l {A B} (m : Tx A) (f : A -> Tx B) s e :
  m s = Revert e -> bind m f s = Revert e.
Proof. unfold bind. by intros ->. Qed.

Lemma bind_step {A B} (m : Tx A) (f : A -> Tx B) s a s1 ev1 :
  m s = Ok (a, s1, ev1) ->
  bind m f s =
    match f a s1 with
    | Revert e => Revert e
    | Ok (b, s2, ev2) => Ok (b, s2, ev1 ++ ev2)
    end.
Proof. unfold bind. by intros ->. Qed.

Lemma require_ok c e s u s' ev :
  require c e s = Ok (u, s', ev) -> c = true /\ s' = s /\ ev = [].
Proof.
  destruct c; cbn; [|discriminate].
  intros Hr. injection Hr as ? ? ?. by subst.
Qed.

Lemma run_revert {A} (tx : Tx A) s e : tx s = Revert e -> run tx s = s.
Proof. unfold run. by intros ->. Qed.

Lemma run_ok {A} (tx : Tx A) s a s' ev : tx s = Ok (a, s', ev) -> run tx s = s'.
Proof. unfold run. by intros ->. Qed.

Section Preserves.

Variable P : RegistryV2.State -> Prop.

Lemma preserves_ret {A} (a : A) : preserves P (ret a).
Proof. intros s a' s' ev Hr HP. injection Hr as ? ? ?. by subst. Qed.

Lemma preserves_revert {A} e : preserves P (@revert A e).
Proof. intros s a s' ev Hr. discriminate Hr. Qed.

Lemma preserves_require c e : preserves P (require c e).
Proof. intros s a s' ev Hr HP. apply require_ok in Hr as (_ & -> & _). exact HP. Qed.

Lemma preserves_read {A} (f : RegistryV2.State -> A) : preserves P (read f).
Proof. intros s a s' ev Hr HP. injection Hr as ? ? ?. by subst. Qed.

Lemma preserves_emit e : preserves P (emit e).
Proof. intros s a s' ev Hr HP. injection Hr as ? ? ?. by subst. Qed.

Lemma preserves_lift {A} (r : Result A) : preserves P (lift r).
Proof. intros s a s' ev Hr HP. destruct r; cbn in Hr; [|discriminate].
       injection Hr as ? ? ?. by subst. Qed.

Lemma preserves_modify f : (forall s, P s -> P (f s)) -> preserves P (modify f).
Proof. intros Hf s a s' ev Hr HP. injection Hr as ? ? ?. subst. by apply Hf. Qed.

Lemma preserves_bind {A B} (m : Tx A) (f : A -> Tx B) :
  preserves P m -> (forall a, preserves P (f a)) -> preserves P (bind m f).
Proof.
  intros Hm Hf s b s2 ev Hb HP.
  apply bind_ok in Hb as (a & s1 & ev1 & ev2 & H1 & H2 & _).
  eapply Hf; [exact H2|]. eapply Hm; [exact H1|exact HP].
Qed.

Lemma preserves_for_each {A} (xs : list A) (body : A -> Tx unit) :
  (forall x, preserves P (body x)) -> preserves P (for_each xs body).
Proof.
  intros Hb. induction xs as [|x xs IH]; cbn.
  - apply preserves_ret.
  - apply preserves_bind; [apply Hb|intros _; exact IH].
Qed.

Lemma preserves_run {A} (tx : Tx A) s : preserves P tx -> P s -> P (run tx s).
Proof.
  intros Hp HP. unfold run.
  destruct (tx s) as [[[a s'] ev]|e] eqn:E; [|exact HP].
  eapply Hp; [exact E|exact HP].
Qed.

End Preserves.

(** Splits a goal [preserves P tx] along the structure of [tx]; what is
    left are the storage writes. *)
Ltac preserves_structure :=
  repeat first
    [ apply preserves_ret | apply preserves_revert | apply preserves_require
    | apply preserves_read | apply preserves_emit | apply preserves_lift
    | apply preserves_for_each; intros
    | apply preserves_bind; [|intros]
    | match goal with
      | |- preserves _ (if ?b then _ else _) => destruct b
      | |- preserves _ (let '(_, _) := ?d in _) => destruct d
      | |- preserves _ (match ?d with _ => _ end) => destruct d
      end
    | apply preserves_modify; intros ].

Ltac unfold_registry :=
  unfold Registry.addIssuer, Registry.removeIssuer, Registry.addUpdater,
    Registry.removeUpdater, Registry.transferOwnership, Registry.updateRoots,
    Registry.registerCredential, Registry.revokeCredential,
    Registry.useNullifier, Registry.useEventNullifier,
    Registry.batchRegisterCredentials, Registry.batchRevokeCredentials,
    Registry.getRoots, Registry._checkOwner, Registry._checkIssuer,
    Registry._checkUpdater.

Ltac unfold_gateway :=
  unfold VerifierV2.call, VerifierV2.verifyAgeWithNullifier,
    VerifierV2.verifyPassportDisclosure, VerifierV2.age_gates,
    VerifierV2.passport_gates, VerifierV2.gates.

(** ** Map reads *)

Lemma mget_insert_eq m k v : mget (<[k := v]> m) k = v.
Proof. unfold mget. by rewrite lookup_insert_eq. Qed.

Lemma mget_insert_ne m k k' v : k <> k' -> mget (<[k := v]> m) k' = mget m k'.
Proof. intros Hne. unfold mget. by rewrite lookup_insert_ne. Qed.

Lemma mget_insert_true m k k' : mget m k' = true -> mget (<[k := true]> m) k' = true.
Proof.
  intros Hm. destruct (decide (k = k')) as [->|Hne].
  - apply mget_insert_eq.
  - by rewrite mget_insert_ne.
Qed.

Lemma mget2_mset2_eq m e n v : mget2 (mset2 m e n v) e n = v.
Proof. unfold mget2, mset2. rewrite lookup_insert_eq. cbn. apply mget_insert_eq. Qed.

Lemma mget2_mset2_ne_scope m e e' n n' v :
  e <> e' -> mget2 (mset2 m e n v) e' n' = mget2 m e' n'.
Proof. intros Hne. unfold mget2, mset2. by rewrite lookup_insert_ne. Qed.

Lemma mget2_mset2_true m e n e' n' :
  mget2 m e' n' = true -> mget2 (mset2 m e n true) e' n' = true.
Proof.
  intros Hm. unfold mget2, mset2 in *.
  destruct (decide (e = e')) as [->|Hne].
  - rewrite lookup_insert_eq. cbn. by apply mget_insert_true.
  - by rewrite lookup_insert_ne.
Qed.

(** ** Invariants of the reachable storage *)

Section Invariants.

Variable oracle : N -> G16 -> list N -> OracleReply.

Lemma steps_preserve (P : RegistryV2.State -> Prop) :
  (forall sender now c, preserves P (Registry.call sender now c)) ->
  (forall g self sender c, preserves P (VerifierV2.call oracle g self sender c)) ->
  forall s s', steps oracle s s' -> P s -> P s'.
Proof.
  intros Hr Hg s s' Hs. induction Hs as [|s s1 s2 Hstep _ IH]; [done|].
  intros HP. apply IH. destruct Hstep; by apply preserves_run.
Qed.

Lemma stable_registry_call P sender now c :
  stable P -> preserves P (Registry.call sender now c).
Proof.
  intros (H1 & H2 & H3 & H4 & H5 & H6 & H7 & H8).
  destruct c; cbn [Registry.call]; unfold_registry; preserves_structure; auto.
Qed.

Lemma stable_gateway_call P g self sender c :
  stable P -> preserves P (VerifierV2.call oracle g self sender c).
Proof.
  intros (H1 & H2 & H3 & H4 & H5 & H6 & H7 & H8).
  destruct c; unfold_gateway; unfold_registry; preserves_structure; auto.
Qed.

Lemma stable_steps P s s' : stable P -> steps oracle s s' -> P s -> P s'.
Proof.
  intros HP. apply steps_preserve; intros.
  - by apply stable_registry_call.
  - by apply stable_gateway_call.
Qed.

End Invariants.

(** ** The entry points in closed form *)

Ltac tx_eval :=
  cbv [bind require read modify emit ret revert lift];
  repeat (cbn; first [ reflexivity | case_match; subst; try discriminate ]).

Lemma registerCredential_spec sender c s :
  Registry.registerCredential sender c s =
    if mget (RegistryV2.authorizedIssuers s) sender then
      if mget (RegistryV2.credentialExists s) c then Revert AlreadyRegistered
      else Ok (tt, RegistryV2.set_credentialExists c s,
               [CredentialRegistered c sender])
    else Revert NotAuthorizedIssuer.
Proof.
  unfold_registry. cbv [bind require read modify emit ret revert].
  destruct (mget (RegistryV2.authorizedIssuers s) sender); [|reflexivity].
  destruct (mget (RegistryV2.credentialExists s) c); reflexivity.
Qed.

Lemma revokeCredential_spec sender c s :
  Registry.revokeCredential sender c s =
    if mget (RegistryV2.authorizedIssuers s) sender then
      if mget (RegistryV2.credentialExists s) c then
        if mget (RegistryV2.credentialRevoked s) c then Revert AlreadyRevoked
        else Ok (tt, RegistryV2.set_credentialRevoked c s,
                 [CredentialRevoked c sender])
      else Revert NotRegistered
    else Revert NotAuthorizedIssuer.
Proof.
  unfold_registry. cbv [bind require read modify emit ret revert].
  destruct (mget (RegistryV2.authorizedIssuers s) sender); [|reflexivity].
  destruct (mget (RegistryV2.credentialExists s) c); [|reflexivity].
  destruct (mget (RegistryV2.credentialRevoked s) c); reflexivity.
Qed.

Lemma useNullifier_spec sender n s :
  Registry.useNullifier sender n s =
    if Registry.isNullifierUsed s n then Revert NullifierAlreadyUsed
    else Ok (tt, RegistryV2.set_nullifierUsed n s, [NullifierUsed n sender]).
Proof.
  unfold_registry. unfold Registry.isNullifierUsed.
  cbv [bind require read modify emit ret revert].
  destruct (mget (RegistryV2.nullifierUsed s) n); reflexivity.
Qed.

Lemma useEventNullifier_spec sender e n s :
  Registry.useEventNullifier sender e n s =
    if Registry.isEventNullifierUsed s e n
    then Revert NullifierAlreadyUsedForThisEvent
    else Ok (tt, RegistryV2.set_eventNullifierUsed e n s,
             [EventNullifierUsed e n sender]).
Proof.
  unfold_registry. unfold Registry.isEventNullifierUsed.
  cbv [bind require read modify emit ret revert].
  destruct (mget2 (RegistryV2.eventNullifierUsed s) e n); reflexivity.
Qed.

Lemma getRoots_spec s :
  Registry.getRoots s =
    Ok ((RegistryV2.registryRoot (RegistryV2.roots s),
         RegistryV2.revocationRoot (RegistryV2.roots s),
         RegistryV2.updatedAt (RegistryV2.roots s)), s, []).
Proof. reflexivity. Qed.

(** ** Monad laws, pointwise *)

Lemma bind_assoc {A B C} (m : Tx A) (f : A -> Tx B) (k : B -> Tx C) s :
  bind (bind m f) k s = bind m (fun a => bind (f a) k) s.
Proof.
  unfold bind. destruct (m s) as [[[a s1] ev1]|e]; [|reflexivity].
  destruct (f a s1) as [[[b s2] ev2]|e]; [|reflexivity].
  destruct (k b s2) as [[[c s3] ev3]|e]; [|reflexivity].
  by rewrite app_assoc.
Qed.

Lemma bind_ret_l {A B} (a : A) (k : A -> Tx B) s : bind (ret a) k s = k a s.
Proof. unfold bind, ret. by destruct (k a s) as [[[b s2] ev2]|e]. Qed.

Lemma bind_ext {A B} (m : Tx A) (f f' : A -> Tx B) s :
  (forall a s1, f a s1 = f' a s1) -> bind m f s = bind m f' s.
Proof.
  intros Hf. unfold bind. destruct (m s) as [[[a s1] ev1]|e]; [|reflexivity].
  by rewrite Hf.
Qed.

Lemma view_ret {A} (a : A) : view (ret a).
Proof. intros s a' s' ev Hr. injection Hr as ? ? ?. by subst. Qed.

Lemma view_require c e : view (require c e).
Proof. intros s a s' ev Hr. by apply require_ok in Hr as (_ & -> & ->). Qed.

Lemma view_read {A} (f : RegistryV2.State -> A) : view (read f).
Proof. intros s a s' ev Hr. injection Hr as ? ? ?. by subst. Qed.

Lemma view_lift {A} (r : Result A) : view (lift r).
Proof.
  intros s a s' ev Hr. destruct r; cbn in Hr; [|discriminate].
  injection Hr as ? ? ?. by subst.
Qed.

Lemma view_bind {A B} (m : Tx A) (f : A -> Tx B) :
  view m -> (forall a, view (f a)) -> view (bind m f).
Proof.
  intros Hm Hf s b s2 ev Hb.
  apply bind_ok in Hb as (a & s1 & ev1 & ev2 & H1 & H2 & ->).
  apply Hm in H1 as [-> ->]. apply Hf in H2 as [-> ->]. done.
Qed.

Ltac view_structure :=
  repeat first
    [ apply view_ret | apply view_require | apply view_read | apply view_lift
    | apply view_bind; [|intros]
    | match goal with
      | |- view (let '(_, _) := ?d in _) => destruct d
      | |- view (match ?d with _ => _ end) => destruct d
      end ].

Lemma roots_only_ret {A} (a : A) : roots_only (ret a).
Proof. by intros s s' _. Qed.

Lemma roots_only_require c e : roots_only (require c e).
Proof. intros s s' _. by destruct c. Qed.

Lemma roots_only_lift {A} (r : Result A) : roots_only (lift r).
Proof. intros s s' _. by destruct r. Qed.

Lemma roots_only_getRoots : roots_only Registry.getRoots.
Proof. intros s s' Hr. unfold outcome. rewrite !getRoots_spec. by rewrite Hr. Qed.

Lemma roots_only_bind {A B} (m : Tx A) (f : A -> Tx B) :
  view m -> roots_only m -> (forall a, roots_only (f a)) ->
  roots_only (bind m f).
Proof.
  intros Hv Hm Hf s s' Hr. specialize (Hm s s' Hr).
  unfold outcome, bind in *.
  destruct (m s) as [[[a t] ev]|e] eqn:E, (m s') as [[[a' t'] ev']|e'] eqn:E';
    try discriminate; [|by injection Hm as ->].
  apply Hv in E as [-> ->]. apply Hv in E' as [-> ->].
  injection Hm as <-. specialize (Hf a s s' Hr). unfold outcome in Hf.
  by destruct (f a s) as [[[b u] ev]|e], (f a s') as [[[b' u'] ev']|e'].
Qed.

Lemma view_getRoots : view Registry.getRoots.
Proof. unfold Registry.getRoots. view_structure. Qed.

Ltac roots_only_structure :=
  repeat first
    [ apply roots_only_ret | apply roots_only_require | apply roots_only_lift
    | apply roots_only_getRoots
    | apply roots_only_bind;
        [first [apply view_require | apply view_lift | apply view_getRoots
               | apply view_ret] | | intros]
    | match goal with
      | |- roots_only (match ?d with _ => _ end) => destruct d
      end ].

Section GatewayForms.

Variable oracle : N -> G16 -> list N -> OracleReply.

Lemma consume_spec self e n err s :
  consume self e n err s =
    if consumed s e n
    then Revert (if e =? 0 then NullifierAlreadyUsed else err)
    else Ok (tt,
             (if e =? 0 then RegistryV2.set_nullifierUsed n s
              else RegistryV2.set_eventNullifierUsed e n s),
             [if e =? 0 then NullifierUsed n self
              else EventNullifierUsed e n self]).
Proof.
  unfold consume, consumed. destruct (e =? 0).
  - unfold bind at 1. unfold read. unfold bind at 1.
    destruct (Registry.isNullifierUsed s n) eqn:E; cbn [negb require ret revert];
      [reflexivity|].
    rewrite useNullifier_spec, E. reflexivity.
  - unfold bind at 1. unfold read. unfold bind at 1.
    destruct (Registry.isEventNullifierUsed s e n) eqn:E;
      cbn [negb require ret revert]; [reflexivity|].
    rewrite useEventNullifier_spec, E. reflexivity.
Qed.

Lemma age_gates_view g m e proof : view (VerifierV2.age_gates oracle g m e proof).
Proof. unfold VerifierV2.age_gates, Registry.getRoots. view_structure. Qed.

Lemma passport_gates_view g proof : view (VerifierV2.passport_gates oracle g proof).
Proof. unfold VerifierV2.passport_gates, Registry.getRoots. view_structure. Qed.

Ltac split_chain :=
  repeat first
    [ rewrite bind_ret_l
    | rewrite bind_assoc; apply bind_ext; intros; cbv beta
    | match goal with
      | |- bind (match ?d with _ => _ end) _ _ = _ => destruct d
      end ].

Lemma verifyAge_split g self sender m e proof s :
  VerifierV2.verifyAgeWithNullifier oracle g self sender m e proof s =
    bind (VerifierV2.age_gates oracle g m e proof) (fun r =>
      consume self e (fst r) NullifierAlreadyUsedForEvent ;;
      emit (ProofVerified sender 0 (fst r) e) ;;
      ret {| VerifierV2.valid := true; VerifierV2.nullifier := fst r;
             VerifierV2.blindedCommitment := snd r |}) s.
Proof.
  unfold VerifierV2.verifyAgeWithNullifier, VerifierV2.age_gates.
  symmetry. split_chain. cbn [fst snd]. unfold consume. reflexivity.
Qed.

Lemma verifyPassport_split g self sender e proof s :
  VerifierV2.verifyPassportDisclosure oracle g self sender e proof s =
    bind (VerifierV2.passport_gates oracle g proof) (fun r =>
      let '(n, c, dn, da, dg) := r in
      consume self e n NullifierUsedForEvent ;;
      emit (ProofVerified sender 1 n e) ;;
      ret ({| VerifierV2.valid := true; VerifierV2.nullifier := n;
              VerifierV2.blindedCommitment := c |}, dn, da, dg)) s.
Proof.
  unfold VerifierV2.verifyPassportDisclosure, VerifierV2.passport_gates.
  symmetry. split_chain. unfold consume. reflexivity.
Qed.

End GatewayForms.

(** ** A gateway call: gates, then check-and-set *)

Lemma lift_ok {A} (r : Result A) s a s' ev :
  lift r s = Ok (a, s', ev) -> r = Ok a /\ s' = s /\ ev = [].
Proof.
  destruct r; cbn; [|discriminate]. intros Hr. injection Hr as ? ? ?. by subst.
Qed.

Lemma ret_ok {A} (x : A) s a s' ev :
  ret x s = Ok (a, s', ev) -> a = x /\ s' = s /\ ev = [].
Proof. intros Hr. injection Hr as ? ? ?. by subst. Qed.

Lemma read_ok {A} (f : RegistryV2.State -> A) s a s' ev :
  read f s = Ok (a, s', ev) -> a = f s /\ s' = s /\ ev = [].
Proof. intros Hr. injection Hr as ? ? ?. by subst. Qed.

(** Inverts a successful run of a chain of binds into its steps. *)
Ltac tx_inv :=
  repeat match goal with
    | H : bind _ _ _ = Ok _ |- _ =>
        apply bind_ok in H as (? & ? & ? & ? & ? & H & ?)
    | H : require _ _ _ = Ok _ |- _ => apply require_ok in H as (? & ? & ?)
    | H : lift _ _ = Ok _ |- _ => apply lift_ok in H as (? & ? & ?)
    | H : ret _ _ = Ok _ |- _ => apply ret_ok in H as (? & ? & ?)
    | H : read _ _ = Ok _ |- _ => apply read_ok in H as (? & ? & ?)
    | H : Registry.getRoots _ = Ok _ |- _ =>
        rewrite getRoots_spec in H; injection H as ? ? ?
    | H : (let '(_, _) := ?d in _) _ = Ok _ |- _ => destruct d
    | H : (match ?d with (_, _) => _ end) _ = Ok _ |- _ => destruct d
    end; subst.

Lemma conflict_error_kind c : kind_of (conflict_error c) = StateConflictError.
Proof. unfold conflict_error. by destruct (_ =? 0), c. Qed.

Lemma consumed_mark e n s : consumed (mark e n s) e n = true.
Proof.
  unfold consumed, mark. destruct (e =? 0); cbn.
  - apply mget_insert_eq.
  - apply mget2_mset2_eq.
Qed.

Lemma consumed_mark_other_scope e n e' n' s :
  e <> e' -> consumed (mark e n s) e' n' = consumed s e' n'.
Proof.
  intros Hne. unfold consumed, mark.
  destruct (N.eqb_spec e 0) as [->|He], (N.eqb_spec e' 0) as [->|He'];
    cbn; try done.
  unfold Registry.isEventNullifierUsed. cbn. by apply mget2_mset2_ne_scope.
Qed.

Lemma consumed_stable e n : stable (fun s => consumed s e n = true).
Proof.
  unfold stable, consumed, Registry.isNullifierUsed, Registry.isEventNullifierUsed.
  repeat split; intros; destruct (e =? 0); cbn; try done.
  - by apply mget_insert_true.
  - by apply mget2_mset2_true.
Qed.

Section GatewayCalls.

Variable oracle : N -> G16 -> list N -> OracleReply.

Lemma gates_view g c : view (VerifierV2.gates oracle g c).
Proof.
  destruct c; cbn [VerifierV2.gates]; apply view_bind;
    auto using age_gates_view, passport_gates_view; intros; apply view_ret.
Qed.

Lemma gates_roots_only g c : roots_only (VerifierV2.gates oracle g c).
Proof.
  destruct c; cbn [VerifierV2.gates];
    unfold VerifierV2.age_gates, VerifierV2.passport_gates.
  - apply roots_only_bind; [apply age_gates_view| |intros; apply roots_only_ret].
    unfold VerifierV2.age_gates. roots_only_structure.
  - apply roots_only_bind; [apply passport_gates_view| |intros; apply roots_only_ret].
    unfold VerifierV2.passport_gates. roots_only_structure.
Qed.

(** Marking a nullifier does not move the roots, so the gates let the same
    call through again. *)
Lemma gates_after_mark g c s n e n' :
  VerifierV2.gates oracle g c s = Ok (n, s, []) ->
  VerifierV2.gates oracle g c (mark e n' s) = Ok (n, mark e n' s, []).
Proof.
  intros Hg.
  assert (Hr : RegistryV2.roots s = RegistryV2.roots (mark e n' s))
    by (unfold mark; by destruct (e =? 0)).
  pose proof (gates_roots_only g c s (mark e n' s) Hr) as Ho.
  unfold outcome in Ho. rewrite Hg in Ho.
  destruct (VerifierV2.gates oracle g c (mark e n' s)) as [[[a t] ev]|err] eqn:E;
    [|discriminate].
  injection Ho as <-. by apply gates_view in E as [-> ->].
Qed.

Lemma call_gates_revert g self sender c s err :
  VerifierV2.gates oracle g c s = Revert err ->
  VerifierV2.call oracle g self sender c s = Revert err.
Proof.
  destruct c; cbn [VerifierV2.gates VerifierV2.call]; unfold bind at 1.
  - destruct (VerifierV2.age_gates oracle g minAge eventId proof s)
      as [[[r s1] ev1]|e] eqn:E; [discriminate|].
    intros [= ->]. rewrite verifyAge_split. by apply bind_revert_l.
  - destruct (VerifierV2.passport_gates oracle g proof s)
      as [[[r s1] ev1]|e] eqn:E; [discriminate|].
    intros [= ->]. apply bind_revert_l.
    rewrite verifyPassport_split. by apply bind_revert_l.
Qed.

Lemma verifyAge_after_gates g self sender m e proof s n b :
  VerifierV2.age_gates oracle g m e proof s = Ok ((n, b), s, []) ->
  VerifierV2.verifyAgeWithNullifier oracle g self sender m e proof s =
    if consumed s e n
    then Revert (if e =? 0 then NullifierAlreadyUsed
                 else NullifierAlreadyUsedForEvent)
    else Ok ({| VerifierV2.valid := true; VerifierV2.nullifier := n;
                VerifierV2.blindedCommitment := b |},
             mark e n s,
             [if e =? 0 then NullifierUsed n self
              else EventNullifierUsed e n self;
              ProofVerified sender 0 n e]).
Proof.
  intros Hg. rewrite verifyAge_split, (bind_step _ _ _ _ _ _ Hg). cbn [fst snd].
  pose proof (consume_spec self e n NullifierAlreadyUsedForEvent s) as Hc.
  destruct (consumed s e n).
  - by rewrite (bind_revert_l _ _ _ _ Hc).
  - by rewrite (bind_step _ _ _ _ _ _ Hc).
Qed.

Lemma verifyPassport_after_gates g self sender e proof s n c dn da dg :
  VerifierV2.passport_gates oracle g proof s = Ok ((n, c, dn, da, dg), s, []) ->
  VerifierV2.verifyPassportDisclosure oracle g self sender e proof s =
    if consumed s e n
    then Revert (if e =? 0 then NullifierAlreadyUsed else NullifierUsedForEvent)
    else Ok (({| VerifierV2.valid := true; VerifierV2.nullifier := n;
                 VerifierV2.blindedCommitment := c |}, dn, da, dg),
             mark e n s,
             [if e =? 0 then NullifierUsed n self
              else EventNullifierUsed e n self;
              ProofVerified sender 1 n e]).
Proof.
  intros Hg. rewrite verifyPassport_split, (bind_step _ _ _ _ _ _ Hg).
  pose proof (consume_spec self e n NullifierUsedForEvent s) as Hc.
  destruct (consumed s e n).
  - by rewrite (bind_revert_l _ _ _ _ Hc).
  - by rewrite (bind_step _ _ _ _ _ _ Hc).
Qed.

Lemma call_after_gates g self sender c s n s' ev :
  VerifierV2.gates oracle g c s = Ok (n, s', ev) ->
  if consumed s (VerifierV2.scope_of c) n
  then VerifierV2.call oracle g self sender c s = Revert (conflict_error c)
  else exists r ev',
      VerifierV2.call oracle g self sender c s
        = Ok (r, mark (VerifierV2.scope_of c) n s, ev')
      /\ VerifierV2.nullifier r = n.
Proof.
  destruct c; cbn [VerifierV2.gates VerifierV2.call VerifierV2.scope_of];
    unfold conflict_error; cbn [VerifierV2.scope_of]; intros Hg.
  - apply bind_ok in Hg as ([n0 b] & s1 & ev1 & ev2 & Hg & Hr & _).
    apply ret_ok in Hr as (-> & _ & _).
    pose proof Hg as Hv. apply age_gates_view in Hv as [-> ->].
    rewrite (verifyAge_after_gates _ self sender _ _ _ _ _ _ Hg). cbn [fst].
    destruct (consumed s eventId n0); [reflexivity|eauto].
  - apply bind_ok in Hg as ([[[[n0 c0] dn] da] dg] & s1 & ev1 & ev2 & Hg & Hr & _).
    apply ret_ok in Hr as (-> & _ & _).
    pose proof Hg as Hv. apply passport_gates_view in Hv as [-> ->].
    pose proof (verifyPassport_after_gates _ self sender eventId _ _ _ _ _ _ _ Hg)
      as Hp.
    cbn [fst]. destruct (consumed s eventId n0).
    + by rewrite (bind_revert_l _ _ _ _ Hp).
    + rewrite (bind_step _ _ _ _ _ _ Hp). cbn. eauto.
Qed.

Lemma call_ok_inv g self sender c s r s1 ev :
  VerifierV2.call oracle g self sender c s = Ok (r, s1, ev) ->
  VerifierV2.gates oracle g c s = Ok (VerifierV2.nullifier r, s, [])
  /\ consumed s (VerifierV2.scope_of c) (VerifierV2.nullifier r) = false
  /\ s1 = mark (VerifierV2.scope_of c) (VerifierV2.nullifier r) s.
Proof.
  intros Hc.
  destruct (VerifierV2.gates oracle g c s) as [[[n s'] ev']|err] eqn:Hg.
  - pose proof Hg as Hv. apply gates_view in Hv as [-> ->].
    pose proof (call_after_gates g self sender _ _ _ _ _ Hg) as H.
    destruct (consumed s (VerifierV2.scope_of c) n) eqn:Hn.
    + rewrite H in Hc. discriminate.
    + destruct H as (r' & ev'' & H & <-). rewrite H in Hc.
      injection Hc as <- <- _. by rewrite Hn.
  - rewrite (call_gates_revert _ self sender _ _ _ Hg) in Hc. discriminate.
Qed.

Lemma carried_at (l : list N) k i x :
  sub_checked (len l) k = Ok i -> index l i = Ok x ->
  (if len l <? k then None else l !! N.to_nat (len l - k)) = Some x.
Proof.
  unfold sub_checked, index. destruct (len l <? k); [discriminate|].
  intros [= <-]. by destruct (l !! N.to_nat (len l - k)); intros [= ->].
Qed.

Lemma gates_carried g c s n s' ev :
  VerifierV2.gates oracle g c s = Ok (n, s', ev) -> carried_nullifier c = Some n.
Proof.
  destruct c; cbn [VerifierV2.gates carried_nullifier];
    unfold VerifierV2.age_gates, VerifierV2.passport_gates; intros Hg; tx_inv;
    match goal with H : _decodeProof _ = _ |- _ => rewrite H end;
    cbn [fst]; eauto using carried_at.
Qed.

End GatewayCalls.

(** ** Nullifiers: single use per scope, isolation between scopes *)

Section Ledger.

Variable oracle : N -> G16 -> list N -> OracleReply.

Lemma consumed_steps e n s s' :
  steps oracle s s' -> consumed s e n = true -> consumed s' e n = true.
Proof. apply (stable_steps oracle (fun s => consumed s e n = true)), consumed_stable. Qed.

(** C1 (as amended). Once a gateway call has consumed nullifier [N] in
    scope [e], the mark stays in every later storage; the same call made
    again right away reverts with the state conflict; and every later
    gateway call carrying [N] in scope [e] reverts and leaves the storage
    as it was, with the state conflict whenever it gets through the gates
    that precede the nullifier check. Hence two calls with the same
    nullifier and scope never both succeed. *)
Theorem nullifier_single_use g self sender c s r s1 ev s2 g' self' sender' c' :
  VerifierV2.call oracle g self sender c s = Ok (r, s1, ev) ->
  steps oracle s1 s2 ->
  VerifierV2.scope_of c' = VerifierV2.scope_of c ->
  carried_nullifier c' = Some (VerifierV2.nullifier r) ->
  consumed s2 (VerifierV2.scope_of c) (VerifierV2.nullifier r) = true
  /\ VerifierV2.call oracle g self sender c s1 = Revert (conflict_error c)
  /\ kind_of (conflict_error c) = StateConflictError
  /\ (exists err,
        VerifierV2.call oracle g' self' sender' c' s2 = Revert err
        /\ (succeeds (VerifierV2.gates oracle g' c') s2 = true ->
            kind_of err = StateConflictError))
  /\ run (VerifierV2.call oracle g' self' sender' c') s2 = s2.
Proof.
  intros Hc Hs He Hn.
  apply call_ok_inv in Hc as (Hgates & _ & ->).
  assert (Hused : consumed s2 (VerifierV2.scope_of c) (VerifierV2.nullifier r) = true)
    by (eapply consumed_steps; [exact Hs|apply consumed_mark]).
  assert (Hreplay :
    VerifierV2.call oracle g self sender c
      (mark (VerifierV2.scope_of c) (VerifierV2.nullifier r) s)
    = Revert (conflict_error c)).
  { pose proof (gates_after_mark oracle g c s _ (VerifierV2.scope_of c)
                  (VerifierV2.nullifier r) Hgates) as Hg.
    pose proof (call_after_gates _ g self sender _ _ _ _ _ Hg) as H.
    by rewrite consumed_mark in H. }
  assert (Hrev : exists err,
    VerifierV2.call oracle g' self' sender' c' s2 = Revert err
    /\ (succeeds (VerifierV2.gates oracle g' c') s2 = true ->
        kind_of err = StateConflictError)).
  { unfold succeeds.
    destruct (VerifierV2.gates oracle g' c' s2) as [[[n' s'] ev']|err] eqn:Hg.
    - pose proof (gates_carried _ _ _ _ _ _ _ Hg) as Hn'.
      rewrite Hn in Hn'. injection Hn' as <-.
      pose proof (call_after_gates _ g' self' sender' _ _ _ _ _ Hg) as H.
      rewrite He, Hused in H. exists (conflict_error c').
      split; [exact H|]. intros _. apply conflict_error_kind.
    - exists err. split; [|discriminate].
      by apply call_gates_revert. }
  split; [exact Hused|]. split; [exact Hreplay|].
  split; [apply conflict_error_kind|]. split; [exact Hrev|].
  destruct Hrev as (err & Hr & _). by apply run_revert in Hr.
Qed.

(** C6. A gateway call in scope [e1] leaves the consumption state of
    every nullifier in every other scope [e2] as it was; at the ledger,
    a global consumption touches no event partition, and a consumption
    in one event partition touches neither the global partition nor any
    other event partition. *)
Theorem scope_isolation (e1 e2 : N) :
  e1 <> e2 ->
  (forall g self sender c s n2,
      VerifierV2.scope_of c = e1 ->
      consumed (run (VerifierV2.call oracle g self sender c) s) e2 n2
      = consumed s e2 n2)
  /\ (forall sender n s e n',
        Registry.isEventNullifierUsed (run (Registry.useNullifier sender n) s) e n'
        = Registry.isEventNullifierUsed s e n')
  /\ (forall sender n s n',
        Registry.isNullifierUsed (run (Registry.useEventNullifier sender e1 n) s) n'
        = Registry.isNullifierUsed s n')
  /\ (forall sender n s n',
        Registry.isEventNullifierUsed
          (run (Registry.useEventNullifier sender e1 n) s) e2 n'
        = Registry.isEventNullifierUsed s e2 n').
Proof.
  intros Hne. repeat split.
  - intros g self sender c s n2 <-. unfold run.
    destruct (VerifierV2.call oracle g self sender c s) as [[[r s1] ev]|err] eqn:Hc;
      [|reflexivity].
    apply call_ok_inv in Hc as (_ & _ & ->). by apply consumed_mark_other_scope.
  - intros sender n s e n'. unfold run. rewrite useNullifier_spec.
    by destruct (Registry.isNullifierUsed s n).
  - intros sender n s n'. unfold run. rewrite useEventNullifier_spec.
    by destruct (Registry.isEventNullifierUsed s e1 n).
  - intros sender n s n'. unfold run. rewrite useEventNullifier_spec.
    destruct (Registry.isEventNullifierUsed s e1 n); [reflexivity|].
    unfold Registry.isEventNullifierUsed. cbn. by apply mget2_mset2_ne_scope.
Qed.

End Ledger.

Import Fixtures.

(** C1 (as stated, refuted). An age verification consumes nullifier 77 in
    the global scope; the issuer then advances the roots; the same call,
    carrying the same nullifier in the same scope, is now rejected as
    stale ("Invalid registry root"), not as a state conflict. *)
Lemma replay_after_root_update_is_stale :
  let c := VerifierV2.CVerifyAge 18 0 (age_statement 0 0 0 77) in
  let s1 := run (VerifierV2.call accept_all gateway0 gateway_address stranger c)
              registry0 in
  let s2 := run (Registry.updateRoots deployer 1000 111 222) s1 in
  outcome (VerifierV2.call accept_all gateway0 gateway_address stranger c) registry0
    = Ok {| VerifierV2.valid := true; VerifierV2.nullifier := 77;
            VerifierV2.blindedCommitment := 555 |}
  /\ consumed s2 0 77 = true
  /\ carried_nullifier c = Some 77
  /\ outcome (VerifierV2.call accept_all gateway0 gateway_address stranger c) s2
     = Revert InvalidRegistryRoot
  /\ kind_of InvalidRegistryRoot = FreshnessError
  /\ ~ (forall oracle g self sender c s r s1 ev s2 g' self' sender' c',
          VerifierV2.call oracle g self sender c s = Ok (r, s1, ev) ->
          steps oracle s1 s2 ->
          VerifierV2.scope_of c' = VerifierV2.scope_of c ->
          carried_nullifier c' = Some (VerifierV2.nullifier r) ->
          exists err,
            VerifierV2.call oracle g' self' sender' c' s2 = Revert err
            /\ kind_of err = StateConflictError).
Proof.
  intros c s1 s2.
  split; [vm_compute; reflexivity|]. split; [vm_compute; reflexivity|].
  split; [vm_compute; reflexivity|]. split; [vm_compute; reflexivity|].
  split; [reflexivity|].
  intros H.
  destruct (H accept_all gateway0 gateway_address stranger c registry0
              {| VerifierV2.valid := true; VerifierV2.nullifier := 77;
                 VerifierV2.blindedCommitment := 555 |}
              s1 [NullifierUsed 77 gateway_address; ProofVerified stranger 0 77 0]
              s2 gateway0 gateway_address stranger c)
    as (err & Hr & Hk).
  - vm_compute. reflexivity.
  - eapply rtc_l; [|apply rtc_refl].
    apply (step_registry accept_all deployer 1000 (Registry.CUpdateRoots 111 222)).
  - reflexivity.
  - vm_compute. reflexivity.
  - vm_compute in Hr. injection Hr as <-. discriminate Hk.
Qed.

Lemma nullifier_single_use_witness :
  let c := VerifierV2.CVerifyAge 18 0 (age_statement 0 0 0 77) in
  let c' := VerifierV2.CVerifyPassport 0 (passport_statement 0 0 0 77) in
  let s1 := run (VerifierV2.call accept_all gateway0 gateway_address stranger c)
              registry0 in
  let s2 := run (Registry.call deployer 1000 (Registry.CRegisterCredential 9)) s1 in
  consumed s2 0 77 = true
  /\ VerifierV2.call accept_all gateway0 gateway_address stranger c s1
     = Revert NullifierAlreadyUsed
  /\ VerifierV2.call accept_all gateway0 gateway_address deployer c' s2
     = Revert NullifierAlreadyUsed
  /\ run (VerifierV2.call accept_all gateway0 gateway_address deployer c') s2 = s2.
Proof.
  intros c c' s1 s2.
  destruct (nullifier_single_use accept_all gateway0 gateway_address stranger c
              registry0
              {| VerifierV2.valid := true; VerifierV2.nullifier := 77;
                 VerifierV2.blindedCommitment := 555 |}
              s1 [NullifierUsed 77 gateway_address; ProofVerified stranger 0 77 0]
              s2 gateway0 gateway_address deployer c')
    as (H1 & H2 & _ & H4 & H5).
  - vm_compute. reflexivity.
  - eapply rtc_l; [|apply rtc_refl].
    apply (step_registry accept_all deployer 1000 (Registry.CRegisterCredential 9)).
  - reflexivity.
  - vm_compute. reflexivity.
  - split; [exact H1|]. split; [exact H2|]. split; [|exact H5].
    destruct H4 as (err & Hr & _). rewrite Hr. f_equal.
    vm_compute in Hr. by injection Hr as <-.
Defined.

Lemma scope_isolation_witness :
  consumed
    (run (VerifierV2.call accept_all gateway0 gateway_address stranger
            (VerifierV2.CVerifyAge 18 5 (age_statement 0 0 5 77))) registry0)
    6 77
  = consumed registry0 6 77.
Proof.
  apply (proj1 (scope_isolation accept_all 5 6 ltac:(discriminate))).
  reflexivity.
Defined.

(** ** Freshness gates *)

Section Freshness.

Variable oracle : N -> G16 -> list N -> OracleReply.

(** An age verification that succeeds was given a statement whose roots
    are the registry's current ones and whose scope is the caller's. *)
Lemma verifyAge_fresh g self sender m e proof s r s1 ev :
  VerifierV2.verifyAgeWithNullifier oracle g self sender m e proof s
    = Ok (r, s1, ev) ->
  exists abc publicInputs,
    _decodeProof proof = Ok (abc, publicInputs)
    /\ index publicInputs 4 = Ok (RegistryV2.registryRoot (RegistryV2.roots s))
    /\ index publicInputs 5 = Ok (RegistryV2.revocationRoot (RegistryV2.roots s))
    /\ index publicInputs 6 = Ok e.
Proof.
  intros Hc. rewrite verifyAge_split in Hc.
  apply bind_ok in Hc as (a & s' & ev1 & ev2 & Hg & _ & _).
  unfold VerifierV2.age_gates in Hg. tx_inv.
  repeat match goal with
         | H : (_ =? _) = true |- _ => apply N.eqb_eq in H; subst
         | H : (_, _) = (_, _) |- _ => injection H as ? ? ?; subst
         end.
  eauto 10.
Qed.

(** A passport verification that succeeds was given a statement whose
    roots are the registry's current ones. *)
Lemma verifyPassport_fresh g self sender e proof s r s1 ev :
  VerifierV2.verifyPassportDisclosure oracle g self sender e proof s
    = Ok (r, s1, ev) ->
  exists abc publicInputs,
    _decodeProof proof = Ok (abc, publicInputs)
    /\ index publicInputs 0 = Ok (RegistryV2.registryRoot (RegistryV2.roots s))
    /\ index publicInputs 1 = Ok (RegistryV2.revocationRoot (RegistryV2.roots s)).
Proof.
  intros Hc. rewrite verifyPassport_split in Hc.
  apply bind_ok in Hc as (a & s' & ev1 & ev2 & Hg & _ & _).
  unfold VerifierV2.passport_gates in Hg. tx_inv.
  repeat match goal with
         | H : (_ =? _) = true |- _ => apply N.eqb_eq in H; subst
         | H : (_, _) = (_, _) |- _ => injection H as ? ? ?; subst
         end.
  eauto 10.
Qed.

(** The passport entry point never compares the caller's scope with
    anything: a statement it accepts under one scope it accepts under
    every scope in which the nullifier is still unused. *)
Lemma verifyPassport_any_scope g self sender e e' proof s r s1 ev :
  VerifierV2.verifyPassportDisclosure oracle g self sender e proof s
    = Ok (r, s1, ev) ->
  consumed s e' (VerifierV2.nullifier (fst (fst (fst r)))) = false ->
  exists ev',
    VerifierV2.verifyPassportDisclosure oracle g self sender e' proof s
      = Ok (r, mark e' (VerifierV2.nullifier (fst (fst (fst r)))) s, ev').
Proof.
  intros Hc Hfree. rewrite verifyPassport_split in Hc.
  apply bind_ok in Hc as ([[[[n c] dn] da] dg] & s' & ev1 & ev2 & Hg & Hk & _).
  pose proof Hg as Hv. apply passport_gates_view in Hv as [-> ->].
  tx_inv. cbn [fst VerifierV2.nullifier] in Hfree.
  rewrite (verifyPassport_after_gates _ _ self sender e' _ _ _ _ _ _ _ Hg), Hfree.
  eauto.
Qed.

(** C10 (as amended). The verify-only entry point decodes the blob and
    asks the oracle, and does nothing else: its result is the oracle's
    answer whatever the registry's roots are, it writes nothing, emits
    nothing and consumes no nullifier. The stand-alone age verifier's
    verify-only entry point is the oracle's answer, with no write. *)
Theorem verifyProofOnly_decodes_and_delegates verifier proof s :
  VerifierV2.verifyProofOnly oracle verifier proof s
    = match _decodeProof proof with
      | Revert e => Revert e
      | Ok (abc, publicInputs) =>
          match VerifierV2._verifyGroth16 oracle verifier abc publicInputs with
          | Ok b => Ok (b, s, [])
          | Revert e => Revert e
          end
      end
  /\ run (VerifierV2.verifyProofOnly oracle verifier proof) s = s
  /\ (forall e n,
        consumed (run (VerifierV2.verifyProofOnly oracle verifier proof) s) e n
        = consumed s e n)
  /\ (forall verifyProof st abc pubSignals,
        AgeVerifier.verifyProofOnly verifyProof st abc pubSignals
        = Ok (verifyProof abc pubSignals, st, [])).
Proof.
  assert (Hform :
    VerifierV2.verifyProofOnly oracle verifier proof s
    = match _decodeProof proof with
      | Revert e => Revert e
      | Ok (abc, publicInputs) =>
          match VerifierV2._verifyGroth16 oracle verifier abc publicInputs with
          | Ok b => Ok (b, s, [])
          | Revert e => Revert e
          end
      end).
  { unfold VerifierV2.verifyProofOnly, bind, lift.
    destruct (_decodeProof proof) as [[abc publicInputs]|e]; [|reflexivity].
    by destruct (VerifierV2._verifyGroth16 oracle verifier abc publicInputs). }
  assert (Hrun : run (VerifierV2.verifyProofOnly oracle verifier proof) s = s).
  { unfold run. rewrite Hform.
    destruct (_decodeProof proof) as [[abc publicInputs]|e]; [|reflexivity].
    by destruct (VerifierV2._verifyGroth16 oracle verifier abc publicInputs). }
  split; [exact Hform|]. split; [exact Hrun|].
  split; [by intros; rewrite Hrun|reflexivity].
Qed.

End Freshness.

(** C2 (the scope half fails on the passport entry point). With the
    registry's roots current in the statement, [verifyPassportDisclosure]
    accepts one and the same statement under the caller-supplied scopes 7
    and 8 and marks its nullifier in the partition of whichever scope the
    caller names; the age entry point rejects the scope mismatch. *)
Theorem passport_scope_unchecked :
  let stmt := passport_statement 0 0 0 77 in
  let result := {| VerifierV2.valid := true; VerifierV2.nullifier := 77;
                   VerifierV2.blindedCommitment := 777 |} in
  outcome (VerifierV2.verifyPassportDisclosure accept_all gateway0
             gateway_address stranger 7 stmt) registry0
    = Ok (result, 0, 18, 0)
  /\ consumed (run (VerifierV2.verifyPassportDisclosure accept_all gateway0
                      gateway_address stranger 7 stmt) registry0) 7 77 = true
  /\ outcome (VerifierV2.verifyPassportDisclosure accept_all gateway0
                gateway_address stranger 8 stmt) registry0
    = Ok (result, 0, 18, 0)
  /\ consumed (run (VerifierV2.verifyPassportDisclosure accept_all gateway0
                      gateway_address stranger 8 stmt) registry0) 8 77 = true
  /\ outcome (VerifierV2.verifyAgeWithNullifier accept_all gateway0
                gateway_address stranger 18 7 (age_statement 0 0 0 77)) registry0
    = Revert EventIdMismatch.
Proof. vm_compute. repeat split; reflexivity. Qed.

(** C10 (as stated, refuted). Against a registry whose roots are (0, 0), a
    statement made for the roots (111, 222) is answered [true] by the
    verify-only entry point, where the age entry point rejects it as
    stale; a blob with no public input at all is answered [true] as well. *)
Lemma verifyProofOnly_skips_freshness :
  RegistryV2.registryRoot (RegistryV2.roots registry0) = 0
  /\ outcome (VerifierV2.verifyProofOnly accept_all 60 (age_statement 111 222 0 77))
       registry0 = Ok true
  /\ outcome (VerifierV2.verifyAgeWithNullifier accept_all gateway0 gateway_address
                stranger 18 0 (age_statement 111 222 0 77)) registry0
     = Revert InvalidRegistryRoot
  /\ outcome (VerifierV2.verifyProofOnly accept_all 60 (blob [])) registry0 = Ok true
  /\ outcome (VerifierV2.verifyAgeWithNullifier accept_all gateway0 gateway_address
                stranger 18 0 (blob [])) registry0
     = Revert InvalidPublicInputs
  /\ ~ (forall oracle verifier proof s abc publicInputs,
          _decodeProof proof = Ok (abc, publicInputs) ->
          index publicInputs 4
            <> Ok (RegistryV2.registryRoot (RegistryV2.roots s)) ->
          outcome (VerifierV2.verifyProofOnly oracle verifier proof) s <> Ok true).
Proof.
  split; [reflexivity|]. split; [vm_compute; reflexivity|].
  split; [vm_compute; reflexivity|]. split; [vm_compute; reflexivity|].
  split; [vm_compute; reflexivity|].
  intros H.
  eapply (H accept_all 60 (age_statement 111 222 0 77) registry0).
  - vm_compute. reflexivity.
  - vm_compute. discriminate.
  - vm_compute. reflexivity.
Qed.

(** ** The credential registry *)

(** C3 (as stated, refuted). An account that is not the gateway marks a
    global and an event-scoped nullifier on a freshly deployed registry. *)
Lemma ledger_write_by_stranger :
  stranger <> gateway_address
  /\ outcome (Registry.useNullifier stranger 77) registry0 = Ok tt
  /\ Registry.isNullifierUsed (run (Registry.useNullifier stranger 77) registry0) 77
     = true
  /\ outcome (Registry.useEventNullifier stranger 5 77) registry0 = Ok tt
  /\ Registry.isEventNullifierUsed
       (run (Registry.useEventNullifier stranger 5 77) registry0) 5 77 = true
  /\ ~ (forall sender n s,
          sender <> gateway_address ->
          exists err,
            Registry.useNullifier sender n s = Revert err
            /\ kind_of err = AuthorizationError).
Proof.
  split; [discriminate|]. split; [vm_compute; reflexivity|].
  split; [vm_compute; reflexivity|]. split; [vm_compute; reflexivity|].
  split; [vm_compute; reflexivity|].
  intros H. destruct (H stranger 77 registry0) as (err & Hr & _); [discriminate|].
  vm_compute in Hr. discriminate Hr.
Qed.

(** C3 (as amended). The ledger's two write operations take no account of
    who calls: for every caller they mark the nullifier when it is not yet
    marked in that partition, and otherwise revert with a state conflict,
    which leaves the ledger as it was. *)
Theorem ledger_write_any_caller sender e n s :
  Registry.useNullifier sender n s
    = (if Registry.isNullifierUsed s n then Revert NullifierAlreadyUsed
       else Ok (tt, RegistryV2.set_nullifierUsed n s, [NullifierUsed n sender]))
  /\ Registry.useEventNullifier sender e n s
    = (if Registry.isEventNullifierUsed s e n
       then Revert NullifierAlreadyUsedForThisEvent
       else Ok (tt, RegistryV2.set_eventNullifierUsed e n s,
                [EventNullifierUsed e n sender]))
  /\ kind_of NullifierAlreadyUsed = StateConflictError
  /\ kind_of NullifierAlreadyUsedForThisEvent = StateConflictError
  /\ run (Registry.useNullifier sender n) s
    = (if Registry.isNullifierUsed s n then s
       else RegistryV2.set_nullifierUsed n s)
  /\ run (Registry.useEventNullifier sender e n) s
    = (if Registry.isEventNullifierUsed s e n then s
       else RegistryV2.set_eventNullifierUsed e n s).
Proof.
  split; [apply useNullifier_spec|]. split; [apply useEventNullifier_spec|].
  split; [reflexivity|]. split; [reflexivity|].
  split; unfold run.
  - rewrite useNullifier_spec. by destruct (Registry.isNullifierUsed s n).
  - rewrite useEventNullifier_spec.
    by destruct (Registry.isEventNullifierUsed s e n).
Qed.

Lemma revoked_stable c :
  stable (fun s => mget (RegistryV2.credentialRevoked s) c = true).
Proof. unfold stable. repeat split; intros; cbn; try done. by apply mget_insert_true. Qed.

Lemma exists_stable c :
  stable (fun s => mget (RegistryV2.credentialExists s) c = true).
Proof. unfold stable. repeat split; intros; cbn; try done. by apply mget_insert_true. Qed.

Lemma revoked_registered_insert_exists c s :
  revoked_registered s -> revoked_registered (RegistryV2.set_credentialExists c s).
Proof. intros H c' Hr. cbn in *. apply mget_insert_true. by apply H. Qed.

Lemma revoked_registered_insert_revoked c s :
  mget (RegistryV2.credentialExists s) c = true ->
  revoked_registered s -> revoked_registered (RegistryV2.set_credentialRevoked c s).
Proof.
  intros Hex H c' Hr. cbn in *. destruct (decide (c = c')) as [<-|Hne]; [done|].
  rewrite mget_insert_ne in Hr by done. by apply H.
Qed.

Lemma batchRevoke_body_spec sender c s :
  (ex <- read RegistryV2.credentialExists ;;
   rv <- read RegistryV2.credentialRevoked ;;
   if mget ex c && negb (mget rv c)
   then modify (RegistryV2.set_credentialRevoked c) ;;
        emit (CredentialRevoked c sender)
   else ret tt) s
  = if mget (RegistryV2.credentialExists s) c
       && negb (mget (RegistryV2.credentialRevoked s) c)
    then Ok (tt, RegistryV2.set_credentialRevoked c s, [CredentialRevoked c sender])
    else Ok (tt, s, []).
Proof.
  cbv [bind read].
  by destruct (mget (RegistryV2.credentialExists s) c
               && negb (mget (RegistryV2.credentialRevoked s) c)).
Qed.

Lemma batchRegister_body_spec sender c s :
  (ex <- read RegistryV2.credentialExists ;;
   if negb (mget ex c)
   then modify (RegistryV2.set_credentialExists c) ;;
        emit (CredentialRegistered c sender)
   else ret tt) s
  = if mget (RegistryV2.credentialExists s) c
    then Ok (tt, s, [])
    else Ok (tt, RegistryV2.set_credentialExists c s,
             [CredentialRegistered c sender]).
Proof. cbv [bind read]. by destruct (mget (RegistryV2.credentialExists s) c). Qed.

Section RegistryInvariants.

Variable oracle : N -> G16 -> list N -> OracleReply.

Lemma revoked_registered_registry_call sender now c :
  preserves revoked_registered (Registry.call sender now c).
Proof.
  destruct c; cbn [Registry.call].
  8: { intros s a s' ev Hr HP. rewrite revokeCredential_spec in Hr.
       destruct (mget (RegistryV2.authorizedIssuers s) sender); [|discriminate].
       destruct (mget (RegistryV2.credentialExists s) commitment) eqn:Hex;
         [|discriminate].
       destruct (mget (RegistryV2.credentialRevoked s) commitment); [discriminate|].
       injection Hr as _ <- _. by apply revoked_registered_insert_revoked. }
  11: { unfold Registry.batchRevokeCredentials.
        apply preserves_bind; [unfold_registry; preserves_structure|intros _].
        apply preserves_for_each. intros c s a s' ev Hr HP.
        rewrite batchRevoke_body_spec in Hr.
        destruct (mget (RegistryV2.credentialExists s) c) eqn:Hex; cbn in Hr.
        - destruct (mget (RegistryV2.credentialRevoked s) c); cbn in Hr;
            injection Hr as _ <- _; [done|].
          by apply revoked_registered_insert_revoked.
        - by injection Hr as _ <- _. }
  all: unfold_registry; preserves_structure;
    auto using revoked_registered_insert_exists.
Qed.

Lemma revoked_registered_gateway_call g self sender c :
  preserves revoked_registered (VerifierV2.call oracle g self sender c).
Proof. destruct c; unfold_gateway; unfold_registry; preserves_structure; auto. Qed.

Lemma revoked_registered_reachable s :
  reachable oracle s -> revoked_registered s.
Proof.
  intros [deployer Hs].
  eapply (steps_preserve oracle revoked_registered); [| |exact Hs|].
  - apply revoked_registered_registry_call.
  - apply revoked_registered_gateway_call.
  - intros c Hr. discriminate Hr.
Qed.

(** C4. After a successful revocation of [c], [isCredentialValid c] is
    false in every storage any sequence of transactions leads to:
    registrations, revocations, batches, root updates, role changes,
    ledger writes and gateway calls alike; none of them clears the mark. *)
Theorem revocation_permanent sender c s u s1 ev s2 :
  Registry.revokeCredential sender c s = Ok (u, s1, ev) ->
  steps oracle s1 s2 ->
  mget (RegistryV2.credentialRevoked s2) c = true
  /\ Registry.isCredentialValid s2 c = false.
Proof.
  intros Hr Hs.
  assert (Hm : mget (RegistryV2.credentialRevoked s2) c = true).
  { eapply (stable_steps oracle _ s1 s2 (revoked_stable c)); [exact Hs|].
    rewrite revokeCredential_spec in Hr.
    repeat (case_match; try discriminate).
    injection Hr as _ <- _. cbn. apply mget_insert_eq. }
  split; [exact Hm|].
  unfold Registry.isCredentialValid. rewrite Hm. apply andb_false_r.
Qed.

(** C5. In a reachable storage, after [registerCredential c] has
    succeeded the credential is valid, the same call again reverts with
    "Already registered" (a state conflict), as it does for every
    authorized issuer, it reverts for every caller, and the credential is
    still valid after the failed attempt, which writes nothing. *)
Theorem registration_strict sender c s u s1 ev :
  reachable oracle s ->
  Registry.registerCredential sender c s = Ok (u, s1, ev) ->
  Registry.isCredentialValid s1 c = true
  /\ Registry.registerCredential sender c s1 = Revert AlreadyRegistered
  /\ kind_of AlreadyRegistered = StateConflictError
  /\ (forall sender',
        exists err,
          Registry.registerCredential sender' c s1 = Revert err
          /\ (mget (RegistryV2.authorizedIssuers s1) sender' = true ->
              err = AlreadyRegistered))
  /\ (forall sender',
        run (Registry.registerCredential sender' c) s1 = s1
        /\ Registry.isCredentialValid
             (run (Registry.registerCredential sender' c) s1) c = true).
Proof.
  intros Hreach Hr. apply revoked_registered_reachable in Hreach.
  rewrite registerCredential_spec in Hr.
  destruct (mget (RegistryV2.authorizedIssuers s) sender) eqn:Hiss; [|discriminate].
  destruct (mget (RegistryV2.credentialExists s) c) eqn:Hex; [discriminate|].
  injection Hr as _ <- _.
  assert (Hvalid : Registry.isCredentialValid
                     (RegistryV2.set_credentialExists c s) c = true).
  { unfold Registry.isCredentialValid. cbn. rewrite mget_insert_eq. cbn.
    destruct (mget (RegistryV2.credentialRevoked s) c) eqn:Hrv; [|done].
    apply Hreach in Hrv. congruence. }
  assert (Hagain : forall sender',
    Registry.registerCredential sender' c (RegistryV2.set_credentialExists c s)
    = if mget (RegistryV2.authorizedIssuers s) sender'
      then Revert AlreadyRegistered else Revert NotAuthorizedIssuer).
  { intros sender'. rewrite registerCredential_spec. cbn.
    by rewrite mget_insert_eq. }
  split; [exact Hvalid|]. split; [by rewrite Hagain, Hiss|].
  split; [reflexivity|]. split.
  - intros sender'. rewrite Hagain. cbn.
    destruct (mget (RegistryV2.authorizedIssuers s) sender'); eauto.
    eexists. split; [reflexivity|discriminate].
  - intros sender'.
    assert (Hrun : run (Registry.registerCredential sender' c)
                     (RegistryV2.set_credentialExists c s)
                   = RegistryV2.set_credentialExists c s).
    { unfold run. rewrite Hagain.
      by destruct (mget (RegistryV2.authorizedIssuers s) sender'). }
    by rewrite Hrun.
Qed.

End RegistryInvariants.

Lemma revocation_permanent_witness :
  mget (RegistryV2.credentialRevoked
          (run (Registry.call deployer 1000 (Registry.CRegisterCredential 9))
             (run (Registry.revokeCredential deployer 9)
                (run (Registry.registerCredential deployer 9) registry0)))) 9 = true
  /\ Registry.isCredentialValid
       (run (Registry.call deployer 1000 (Registry.CRegisterCredential 9))
          (run (Registry.revokeCredential deployer 9)
             (run (Registry.registerCredential deployer 9) registry0))) 9 = false.
Proof.
  eapply (revocation_permanent accept_all deployer 9
            (run (Registry.registerCredential deployer 9) registry0) tt).
  - vm_compute. reflexivity.
  - eapply rtc_l; [|apply rtc_refl].
    apply (step_registry accept_all deployer 1000 (Registry.CRegisterCredential 9)).
Defined.

Lemma registration_strict_witness :
  Registry.isCredentialValid
    (run (Registry.registerCredential deployer 9) registry0) 9 = true
  /\ Registry.registerCredential deployer 9
       (run (Registry.registerCredential deployer 9) registry0)
     = Revert AlreadyRegistered.
Proof.
  assert (Hreach : reachable accept_all registry0)
    by (exists deployer; apply rtc_refl).
  destruct (registration_strict accept_all deployer 9 registry0 tt
              (run (Registry.registerCredential deployer 9) registry0)
              [CredentialRegistered 9 deployer] Hreach)
    as (H1 & H2 & _).
  - vm_compute. reflexivity.
  - split; [exact H1|exact H2].
Defined.

(** ** Batches against single calls *)

Lemma checkIssuer_ok sender s :
  mget (RegistryV2.authorizedIssuers s) sender = true ->
  Registry._checkIssuer sender s = Ok (tt, s, []).
Proof. intros H. unfold Registry._checkIssuer. cbv [bind read]. by rewrite H. Qed.

Lemma for_each_never_reverts {A} (xs : list A) (body : A -> Tx unit) s :
  (forall x s', succeeds (body x) s' = true) ->
  succeeds (for_each xs body) s = true.
Proof.
  intros Hb. revert s. induction xs as [|x xs IH]; intros s; [reflexivity|].
  cbn [for_each]. unfold succeeds, bind.
  specialize (Hb x s). unfold succeeds in Hb.
  destruct (body x s) as [[[u s1] ev1]|e]; [|discriminate].
  specialize (IH s1). unfold succeeds in IH.
  by destruct (for_each xs body s1) as [[[u' s2] ev2]|e].
Qed.

Lemma for_each_ext {A} (xs : list A) (f g : A -> Tx unit)
    (I : RegistryV2.State -> Prop) s :
  (forall x s', I s' -> f x s' = g x s') ->
  (forall x, preserves I (g x)) ->
  I s -> for_each xs f s = for_each xs g s.
Proof.
  intros Hfg Hg. revert s. induction xs as [|x xs IH]; intros s HI; [reflexivity|].
  cbn [for_each]. unfold bind. rewrite (Hfg x s HI).
  destruct (g x s) as [[[u s1] ev1]|e] eqn:E; [|reflexivity].
  rewrite IH; [reflexivity|]. eapply Hg; [exact E|exact HI].
Qed.

Lemma skip_register_keeps_issuers sender sender' c :
  preserves (fun s => mget (RegistryV2.authorizedIssuers s) sender = true)
    (skip_on_revert (Registry.registerCredential sender' c)).
Proof.
  intros s a s' ev Hr HI. unfold skip_on_revert in Hr.
  rewrite registerCredential_spec in Hr.
  destruct (mget (RegistryV2.authorizedIssuers s) sender'),
           (mget (RegistryV2.credentialExists s) c);
    injection Hr as _ <- _; done.
Qed.

Lemma skip_revoke_keeps_issuers sender sender' c :
  preserves (fun s => mget (RegistryV2.authorizedIssuers s) sender = true)
    (skip_on_revert (Registry.revokeCredential sender' c)).
Proof.
  intros s a s' ev Hr HI. unfold skip_on_revert in Hr.
  rewrite revokeCredential_spec in Hr.
  destruct (mget (RegistryV2.authorizedIssuers s) sender'),
           (mget (RegistryV2.credentialExists s) c),
           (mget (RegistryV2.credentialRevoked s) c);
    injection Hr as _ <- _; done.
Qed.

Lemma batchRegister_loop sender cs s :
  mget (RegistryV2.authorizedIssuers s) sender = true ->
  for_each cs (fun c =>
      ex <- read RegistryV2.credentialExists ;;
      if negb (mget ex c)
      then modify (RegistryV2.set_credentialExists c) ;;
           emit (CredentialRegistered c sender)
      else ret tt) s
  = for_each cs (fun c => skip_on_revert (Registry.registerCredential sender c)) s.
Proof.
  apply (for_each_ext cs _ _
           (fun s => mget (RegistryV2.authorizedIssuers s) sender = true)).
  - intros c s' Hiss. rewrite batchRegister_body_spec. unfold skip_on_revert.
    rewrite registerCredential_spec, Hiss.
    by destruct (mget (RegistryV2.credentialExists s') c).
  - intros c. apply skip_register_keeps_issuers.
Qed.

Lemma batchRevoke_loop sender cs s :
  mget (RegistryV2.authorizedIssuers s) sender = true ->
  for_each cs (fun c =>
      ex <- read RegistryV2.credentialExists ;;
      rv <- read RegistryV2.credentialRevoked ;;
      if mget ex c && negb (mget rv c)
      then modify (RegistryV2.set_credentialRevoked c) ;;
           emit (CredentialRevoked c sender)
      else ret tt) s
  = for_each cs (fun c => skip_on_revert (Registry.revokeCredential sender c)) s.
Proof.
  apply (for_each_ext cs _ _
           (fun s => mget (RegistryV2.authorizedIssuers s) sender = true)).
  - intros c s' Hiss. rewrite batchRevoke_body_spec. unfold skip_on_revert.
    rewrite revokeCredential_spec, Hiss.
    by destruct (mget (RegistryV2.credentialExists s') c),
                (mget (RegistryV2.credentialRevoked s') c).
  - intros c. apply skip_revoke_keeps_issuers.
Qed.

(** C9. For an authorized issuer and every list of commitments, a batch
    is the loop of the single-item call over the list in which a reverting
    element is skipped, with the storage and the events untouched by that
    element; a batch therefore never reverts. The single-item calls do
    revert on the very conditions a batch skips: registering a registered
    commitment, revoking an unregistered one, revoking a revoked one. *)
Theorem batch_skips_where_single_reverts sender cs s :
  mget (RegistryV2.authorizedIssuers s) sender = true ->
  Registry.batchRegisterCredentials sender cs s
    = for_each cs (fun c => skip_on_revert (Registry.registerCredential sender c)) s
  /\ Registry.batchRevokeCredentials sender cs s
    = for_each cs (fun c => skip_on_revert (Registry.revokeCredential sender c)) s
  /\ succeeds (Registry.batchRegisterCredentials sender cs) s = true
  /\ succeeds (Registry.batchRevokeCredentials sender cs) s = true
  /\ (forall c, mget (RegistryV2.credentialExists s) c = true ->
        Registry.registerCredential sender c s = Revert AlreadyRegistered
        /\ skip_on_revert (Registry.registerCredential sender c) s = Ok (tt, s, []))
  /\ (forall c, mget (RegistryV2.credentialExists s) c = false ->
        Registry.revokeCredential sender c s = Revert NotRegistered
        /\ skip_on_revert (Registry.revokeCredential sender c) s = Ok (tt, s, []))
  /\ (forall c, mget (RegistryV2.credentialExists s) c = true ->
        mget (RegistryV2.credentialRevoked s) c = true ->
        Registry.revokeCredential sender c s = Revert AlreadyRevoked
        /\ skip_on_revert (Registry.revokeCredential sender c) s = Ok (tt, s, [])).
Proof.
  intros Hiss.
  assert (Hreg : Registry.batchRegisterCredentials sender cs s
    = for_each cs (fun c => skip_on_revert (Registry.registerCredential sender c)) s).
  { unfold Registry.batchRegisterCredentials.
    rewrite (bind_step _ _ _ _ _ _ (checkIssuer_ok _ _ Hiss)).
    rewrite batchRegister_loop by done.
    match goal with |- match ?x with _ => _ end = _ => by destruct x as [[[? ?] ?]|?] end. }
  assert (Hrev : Registry.batchRevokeCredentials sender cs s
    = for_each cs (fun c => skip_on_revert (Registry.revokeCredential sender c)) s).
  { unfold Registry.batchRevokeCredentials.
    rewrite (bind_step _ _ _ _ _ _ (checkIssuer_ok _ _ Hiss)).
    rewrite batchRevoke_loop by done.
    match goal with |- match ?x with _ => _ end = _ => by destruct x as [[[? ?] ?]|?] end. }
  assert (Hskip : forall (tx : Tx unit) s', succeeds (skip_on_revert tx) s' = true).
  { intros tx s'. unfold succeeds, skip_on_revert. by destruct (tx s'). }
  split; [exact Hreg|]. split; [exact Hrev|].
  split; [unfold succeeds; rewrite Hreg; apply for_each_never_reverts; auto|].
  split; [unfold succeeds; rewrite Hrev; apply for_each_never_reverts; auto|].
  split; [|split].
  - intros c Hex. unfold skip_on_revert.
    by rewrite registerCredential_spec, Hiss, Hex.
  - intros c Hex. unfold skip_on_revert.
    by rewrite revokeCredential_spec, Hiss, Hex.
  - intros c Hex Hrv. unfold skip_on_revert.
    by rewrite revokeCredential_spec, Hiss, Hex, Hrv.
Qed.

Lemma batch_skips_where_single_reverts_witness :
  Registry.batchRegisterCredentials deployer [9; 10; 9]
    (run (Registry.registerCredential deployer 10) registry0)
  = for_each [9; 10; 9]
      (fun c => skip_on_revert (Registry.registerCredential deployer c))
      (run (Registry.registerCredential deployer 10) registry0)
  /\ succeeds (Registry.batchRevokeCredentials deployer [9; 10; 9])
       (run (Registry.registerCredential deployer 10) registry0) = true
  /\ Registry.registerCredential deployer 10
       (run (Registry.registerCredential deployer 10) registry0)
     = Revert AlreadyRegistered.
Proof.
  destruct (batch_skips_where_single_reverts deployer [9; 10; 9]
              (run (Registry.registerCredential deployer 10) registry0))
    as (H1 & _ & _ & H4 & H5 & _).
  - vm_compute. reflexivity.
  - split; [exact H1|]. split; [exact H4|].
    apply H5. vm_compute. reflexivity.
Defined.

(** ** Circuits *)

Section CircuitFacts.

Local Open Scope Z_scope.
Import Circuits.

Variable Poseidon : list Z -> Z.

Lemma p_pos : 0 < p.
Proof. reflexivity. Qed.

Lemma IsZero_small x : 0 <= x < p -> IsZero x = if x =? 0 then 1 else 0.
Proof. intros Hx. unfold IsZero. by rewrite Z.mod_small. Qed.

Lemma Mux1_select c0 c1 s :
  s = 0 \/ s = 1 -> Mux1 c0 c1 s = (if s =? 1 then c1 else c0) mod p.
Proof.
  intros [-> | ->]; unfold Mux1.
  - change (0 =? 1) with false. f_equal. lia.
  - change (1 =? 1) with true. f_equal. lia.
Qed.

Lemma IsEqual_cases a b : IsEqual a b = 0 \/ IsEqual a b = 1.
Proof. unfold IsEqual, IsZero. destruct (_ =? 0); auto. Qed.

Lemma lc1_mod x n : 0 <= x -> lc1 x n = x mod 2 ^ Z.of_nat n.
Proof.
  intros Hx. induction n as [|n IH].
  - cbn. by rewrite Z.mod_1_r.
  - cbn [lc1]. rewrite IH. unfold bit_of.
    rewrite Z.testbit_spec' by lia.
    rewrite Nat2Z.inj_succ, Z.pow_succ_r by lia.
    rewrite (Z.mul_comm 2), Z.rem_mul_r by lia. lia.
Qed.

(** [Num2Bits(n)] has a satisfying assignment for a field element only
    when it is below [2^n]. *)
Lemma Num2Bits_in_range n x :
  0 <= x < 2 ^ Z.of_nat n -> x < p ->
  Num2Bits n x = Some (map (bit_of x) (seq 0 n)).
Proof.
  intros Hx Hp. unfold Num2Bits.
  rewrite (Z.mod_small x p) by lia.
  rewrite lc1_mod, (Z.mod_small x (2 ^ Z.of_nat n)) by lia.
  by rewrite Z.sub_diag.
Qed.

Lemma Num2Bits_out_of_range n x :
  2 ^ Z.of_nat n <= x < p -> Num2Bits n x = None.
Proof.
  intros Hx. unfold Num2Bits.
  assert (0 < 2 ^ Z.of_nat n) by (apply Z.pow_pos_nonneg; lia).
  rewrite (Z.mod_small x p) by lia.
  rewrite lc1_mod by lia.
  pose proof (Z.mod_pos_bound x (2 ^ Z.of_nat n) ltac:(lia)) as Hm.
  replace ((x mod 2 ^ Z.of_nat n - x) mod p)
    with (p - (x - x mod 2 ^ Z.of_nat n)).
  - destruct (Z.eqb_spec (p - (x - x mod 2 ^ Z.of_nat n)) 0); [lia|done].
  - apply Z.mod_unique_pos with (q := -1); lia.
Qed.

Lemma levelHashes_along h es v k :
  0 <= v ->
  levelHashes Poseidon h es (map (bit_of v) (seq k (length es)))
  = Some (root_along Poseidon h es (Z.shiftr v (Z.of_nat k))).
Proof.
  intros Hv. revert h k. induction es as [|e es IH]; intros h k; [reflexivity|].
  cbn [length seq map levelHashes root_along].
  assert (Hbit : bit_of v k = Z.b2z (Z.odd (Z.shiftr v (Z.of_nat k)))).
  { unfold bit_of. f_equal. rewrite <- Z.bit0_odd, Z.shiftr_spec by lia.
    reflexivity. }
  assert (Hnext : Z.div2 (Z.shiftr v (Z.of_nat k)) = Z.shiftr v (Z.of_nat (S k))).
  { rewrite Z.div2_spec, Z.shiftr_shiftr by lia. f_equal. lia. }
  rewrite Hbit, Hnext.
  destruct (Z.odd (Z.shiftr v (Z.of_nat k))); cbn [Z.b2z].
  - replace ((1 * (1 - 1)) mod p =? 0) with true by reflexivity.
    rewrite IH. unfold MultiMux1_2. cbn [fst snd].
    replace ((e - h) * 1 + h) with e by lia.
    by replace ((h - e) * 1 + e) with h by lia.
  - replace ((0 * (1 - 0)) mod p =? 0) with true by reflexivity.
    rewrite IH. unfold MultiMux1_2. cbn [fst snd].
    replace ((e - h) * 0 + h) with h by lia.
    by replace ((h - e) * 0 + e) with e by lia.
Qed.

(** On keys that fit in [levels] bits and with a binary flag, the
    non-inclusion template computes what it is meant to. *)
Lemma SparseMerkleTreeNonInclusion_in_range
    levels key root siblings isOld0 oldKey oldValue :
  0 <= key < 2 ^ Z.of_nat levels -> key < p ->
  length siblings = levels ->
  isOld0 = 0 \/ isOld0 = 1 ->
  SparseMerkleTreeNonInclusion Poseidon levels key root siblings
    isOld0 oldKey oldValue
  = Some
      (if IsEqual
            (root_along Poseidon
               (if isOld0 =? 1 then 0 else Poseidon [oldKey; oldValue] mod p)
               siblings key) root =? 1
       then if (isOld0 =? 1) || (IsEqual key oldKey =? 0) then 1 else 0
       else 0).
Proof.
  intros Hkey Hp Hlen Hflag. unfold SparseMerkleTreeNonInclusion.
  rewrite Num2Bits_in_range by lia.
  unfold MerkleTreeInclusionProof.
  rewrite length_map, length_seq, Hlen, Nat.eqb_refl. cbn [andb].
  rewrite <- Hlen at 1. rewrite levelHashes_along by lia.
  rewrite Z.shiftr_0_r. f_equal.
  rewrite (Mux1_select _ _ _ Hflag).
  assert (Hleaf : (if isOld0 =? 1 then 0 else Poseidon [oldKey; oldValue]) mod p
                  = if isOld0 =? 1 then 0 else Poseidon [oldKey; oldValue] mod p)
    by (by destruct (isOld0 =? 1)).
  rewrite Hleaf.
  destruct (IsEqual_cases
              (root_along Poseidon
                 (if isOld0 =? 1 then 0 else Poseidon [oldKey; oldValue] mod p)
                 siblings key) root) as [-> | ->],
           (IsEqual_cases key oldKey) as [-> | ->],
           Hflag as [-> | ->]; reflexivity.
Qed.

(** On any wider key the template has no satisfying assignment, whatever
    the other inputs are. *)
Lemma SparseMerkleTreeNonInclusion_wide_key
    levels key root siblings isOld0 oldKey oldValue :
  2 ^ Z.of_nat levels <= key < p ->
  SparseMerkleTreeNonInclusion Poseidon levels key root siblings
    isOld0 oldKey oldValue = None.
Proof.
  intros Hkey. unfold SparseMerkleTreeNonInclusion.
  by rewrite Num2Bits_out_of_range.
Qed.

End CircuitFacts.

Section Selection.

Variable Poseidon : list Z -> Z.
Variable oracle : N -> G16 -> list N -> OracleReply.

(** C7 (as amended). For every scope that is a field element, that is,
    below the field prime, the circuit and the gateway select the same
    partition: scope 0 the global one, any other scope the event-bound
    one. The circuit's nullifier output is the derivation of the partition
    it selects, and a successful gateway call writes the ledger of the
    partition the gateway selects. Over all scope values the two
    selections agree exactly on 0 and on the values that are not a
    multiple of the field prime. *)
Theorem partition_selection_agrees (e : N) :
  (Z.of_N e < Circuits.p)%Z ->
  circuit_selection (Z.of_N e) = gateway_selection e
  /\ (gateway_selection e = GlobalPartition <-> e = 0)
  /\ (forall secret commitment,
        Circuits.AgeProofV2_nullifier Poseidon secret commitment (Z.of_N e)
        = ((match circuit_selection (Z.of_N e) with
            | GlobalPartition => Circuits.GlobalNullifier Poseidon secret commitment
            | EventPartition =>
                Circuits.EventBoundNullifier Poseidon secret (Z.of_N e)
            end) mod Circuits.p)%Z)
  /\ (forall g self sender c s r s1 ev,
        VerifierV2.scope_of c = e ->
        VerifierV2.call oracle g self sender c s = Ok (r, s1, ev) ->
        s1 = match gateway_selection e with
             | GlobalPartition =>
                 RegistryV2.set_nullifierUsed (VerifierV2.nullifier r) s
             | EventPartition =>
                 RegistryV2.set_eventNullifierUsed e (VerifierV2.nullifier r) s
             end)
  /\ (forall e' : N,
        circuit_selection (Z.of_N e') = gateway_selection e'
        <-> e' = 0 \/ (Z.of_N e' mod Circuits.p <> 0)%Z).
Proof.
  intros He.
  assert (Hsel : Circuits.isGlobal (Z.of_N e) = if e =? 0 then 1%Z else 0%Z).
  { unfold Circuits.isGlobal. rewrite IsZero_small by lia.
    destruct (N.eqb_spec e 0) as [->|Hne]; [reflexivity|].
    destruct (Z.eqb_spec (Z.of_N e) 0); [lia|reflexivity]. }
  split; [|split; [|split; [|split]]].
  - unfold circuit_selection, gateway_selection. rewrite Hsel.
    by destruct (e =? 0).
  - unfold gateway_selection. destruct (N.eqb_spec e 0); split; done.
  - intros secret commitment.
    unfold circuit_selection, Circuits.AgeProofV2_nullifier. rewrite Hsel.
    destruct (e =? 0); rewrite Mux1_select by auto; reflexivity.
  - intros g self sender c s r s1 ev <- Hc.
    apply call_ok_inv in Hc as (_ & _ & ->).
    unfold mark, gateway_selection. by destruct (_ =? 0).
  - intros e'.
    unfold circuit_selection, gateway_selection, Circuits.isGlobal, Circuits.IsZero.
    destruct (Z.eqb_spec (Z.of_N e' mod Circuits.p) 0) as [Hz | Hnz],
             (N.eqb_spec e' 0) as [-> | Hne]; cbn.
    + split; auto.
    + split; [discriminate|]. intros [? | ?]; contradiction.
    + exfalso. apply Hnz. reflexivity.
    + split; auto.
Qed.

(** C8 (the key's range). With 20 levels, the key [2^20], the empty-slot
    flag set and the root that the empty leaf hashes up to along the
    key's low 20 bits, the recomputed root equals the claimed one and the
    first validity condition holds, yet the template has no satisfying
    assignment and produces no [valid] at all: [Num2Bits(levels)] admits
    only keys below [2^levels]. *)
Theorem non_inclusion_rejects_wide_key :
  let key := (2 ^ 20)%Z in
  let siblings := repeat 0%Z 20 in
  let root := Circuits.root_along Poseidon 0 siblings key in
  Circuits.IsEqual (Circuits.root_along Poseidon 0 siblings key) root = 1%Z
  /\ Circuits.Mux1 (Poseidon [0; 0]%Z) 0 1 = 0%Z
  /\ Circuits.SparseMerkleTreeNonInclusion Poseidon 20 key root siblings 1 0 0
     = None.
Proof.
  intros key siblings root. split; [|split].
  - unfold Circuits.IsEqual, Circuits.IsZero. by rewrite Z.sub_diag.
  - unfold Circuits.Mux1.
    replace ((0 - Poseidon [0; 0]) * 1 + Poseidon [0; 0])%Z with 0%Z by lia.
    reflexivity.
  - unfold Circuits.SparseMerkleTreeNonInclusion.
    by rewrite Num2Bits_out_of_range.
Qed.

End Selection.

Lemma partition_selection_agrees_witness :
  circuit_selection 5 = gateway_selection 5
  /\ run (VerifierV2.call accept_all gateway0 gateway_address stranger
            (VerifierV2.CVerifyAge 18 5 (age_statement 0 0 5 77))) registry0
     = RegistryV2.set_eventNullifierUsed 5 77 registry0.
Proof.
  destruct (partition_selection_agrees (fun _ => 0%Z) accept_all 5 eq_refl)
    as (H1 & _ & _ & H4 & _).
  split; [exact H1|].
  apply (H4 gateway0 gateway_address stranger
           (VerifierV2.CVerifyAge 18 5 (age_statement 0 0 5 77)) registry0
           {| VerifierV2.valid := true; VerifierV2.nullifier := 77;
              VerifierV2.blindedCommitment := 555 |}
           _ [EventNullifierUsed 5 77 gateway_address; ProofVerified stranger 0 77 5]
           eq_refl).
  vm_compute. reflexivity.
Defined.

(** C7 (as stated, refuted). The field prime [p] is a [uint256] value the
    gateway accepts as scope. In the circuit it is the field's zero, so
    [IsZero] selects the global derivation and the nullifier output is
    the global one; the gateway compares the 256-bit value with 0 and
    selects the event ledger: a successful call at scope [p] marks the
    nullifier in event partition [p] and leaves the global ledger
    unmarked. The two selections are not equal on all scope values. *)
Lemma selection_differs_at_field_prime :
  let e := Z.to_N Circuits.p in
  let c := VerifierV2.CVerifyAge 18 e (age_statement 0 0 e 77) in
  let s1 := run (VerifierV2.call accept_all gateway0 gateway_address stranger c)
              registry0 in
  e < 2 ^ 256
  /\ circuit_selection (Z.of_N e) = GlobalPartition
  /\ gateway_selection e = EventPartition
  /\ (forall Poseidon secret commitment,
        Circuits.AgeProofV2_nullifier Poseidon secret commitment (Z.of_N e)
        = (Circuits.GlobalNullifier Poseidon secret commitment mod Circuits.p)%Z)
  /\ outcome (VerifierV2.call accept_all gateway0 gateway_address stranger c)
       registry0
     = Ok {| VerifierV2.valid := true; VerifierV2.nullifier := 77;
             VerifierV2.blindedCommitment := 555 |}
  /\ Registry.isEventNullifierUsed s1 e 77 = true
  /\ Registry.isNullifierUsed s1 77 = false
  /\ ~ (forall e' : N, circuit_selection (Z.of_N e') = gateway_selection e').
Proof.
  intros e c s1.
  split; [reflexivity|]. split; [vm_compute; reflexivity|].
  split; [vm_compute; reflexivity|]. split.
  { intros Poseidon secret commitment. unfold Circuits.AgeProofV2_nullifier.
    change (Circuits.isGlobal (Z.of_N e)) with 1%Z.
    rewrite Mux1_select by auto. reflexivity. }
  split; [vm_compute; reflexivity|]. split; [vm_compute; reflexivity|].
  split; [vm_compute; reflexivity|].
  intros Hall. specialize (Hall e). vm_compute in Hall. discriminate Hall.
Qed.

(** * Further properties of the registry *)

Lemma checkOwner_spec sender s :
  Registry._checkOwner sender s
  = if sender =? RegistryV2.owner s then Ok (tt, s, []) else Revert NotOwner.
Proof.
  unfold Registry._checkOwner. cbv [bind read].
  by destruct (sender =? RegistryV2.owner s).
Qed.

Lemma checkUpdater_spec sender s :
  Registry._checkUpdater sender s
  = if mget (RegistryV2.authorizedUpdaters s) sender
       || mget (RegistryV2.authorizedIssuers s) sender
    then Ok (tt, s, []) else Revert NotAuthorizedUpdater.
Proof.
  unfold Registry._checkUpdater. cbv [bind read].
  by destruct (mget (RegistryV2.authorizedUpdaters s) sender
               || mget (RegistryV2.authorizedIssuers s) sender).
Qed.

Lemma checkIssuer_spec sender s :
  Registry._checkIssuer sender s
  = if mget (RegistryV2.authorizedIssuers s) sender
    then Ok (tt, s, []) else Revert NotAuthorizedIssuer.
Proof.
  unfold Registry._checkIssuer. cbv [bind read].
  by destruct (mget (RegistryV2.authorizedIssuers s) sender).
Qed.

Lemma updateRoots_spec sender now r v s :
  Registry.updateRoots sender now r v s
  = if mget (RegistryV2.authorizedUpdaters s) sender
       || mget (RegistryV2.authorizedIssuers s) sender
    then Ok (tt,
             RegistryV2.set_roots
               {| RegistryV2.registryRoot := r; RegistryV2.revocationRoot := v;
                  RegistryV2.updatedAt := now mod 2 ^ 64 |} s,
             [RootsUpdated r v (now mod 2 ^ 64)])
    else Revert NotAuthorizedUpdater.
Proof.
  unfold Registry.updateRoots. unfold bind at 1. rewrite checkUpdater_spec.
  by destruct (mget (RegistryV2.authorizedUpdaters s) sender
               || mget (RegistryV2.authorizedIssuers s) sender).
Qed.

Lemma owner_only_revert {A} sender (k : Tx A) s :
  (sender =? RegistryV2.owner s) = false ->
  bind (Registry._checkOwner sender) (fun _ => k) s = Revert NotOwner.
Proof. intros H. apply bind_revert_l. by rewrite checkOwner_spec, H. Qed.

Lemma issuer_only_revert {A} sender (k : Tx A) s :
  mget (RegistryV2.authorizedIssuers s) sender = false ->
  bind (Registry._checkIssuer sender) (fun _ => k) s = Revert NotAuthorizedIssuer.
Proof. intros H. apply bind_revert_l. by rewrite checkIssuer_spec, H. Qed.

(** X1. An updater or issuer replaces the roots record wholesale: reading
    the roots back gives exactly the submitted pair and the block
    timestamp reduced to 64 bits, whatever was stored before; no
    credential's validity and no nullifier mark is touched. *)
Theorem updateRoots_getRoots sender now r v s :
  mget (RegistryV2.authorizedUpdaters s) sender
  || mget (RegistryV2.authorizedIssuers s) sender = true ->
  outcome (Registry.updateRoots sender now r v) s = Ok tt
  /\ outcome Registry.getRoots (run (Registry.updateRoots sender now r v) s)
     = Ok (r, v, now mod 2 ^ 64)
  /\ now mod 2 ^ 64 < 2 ^ 64
  /\ (forall c,
        Registry.isCredentialValid (run (Registry.updateRoots sender now r v) s) c
        = Registry.isCredentialValid s c)
  /\ (forall e n,
        consumed (run (Registry.updateRoots sender now r v) s) e n
        = consumed s e n).
Proof.
  intros Hauth. unfold outcome, run. rewrite updateRoots_spec, Hauth.
  split; [reflexivity|]. split; [reflexivity|].
  split; [apply N.mod_lt; discriminate|]. split; reflexivity.
Qed.

Lemma updateRoots_getRoots_witness :
  outcome Registry.getRoots
    (run (Registry.updateRoots deployer (2 ^ 64 + 5) 111 222) registry0)
  = Ok (111, 222, 5).
Proof.
  apply (updateRoots_getRoots deployer (2 ^ 64 + 5) 111 222 registry0).
  vm_compute. reflexivity.
Defined.

Section RegistryFrames.

Variable oracle : N -> G16 -> list N -> OracleReply.

(** X2. The roots record changes through [updateRoots] only: every other
    registry entry point, successful or not, leaves it as it was. *)
Theorem roots_change_only_by_updateRoots sender now c s :
  (forall r v, c <> Registry.CUpdateRoots r v) ->
  RegistryV2.roots (run (Registry.call sender now c) s) = RegistryV2.roots s.
Proof.
  intros Hc.
  apply (preserves_run (fun s' => RegistryV2.roots s' = RegistryV2.roots s));
    [|reflexivity].
  destruct c; cbn [Registry.call]; try (by destruct (Hc registryRoot revocationRoot));
    unfold_registry; preserves_structure; auto.
Qed.

(** X3. A call from an account that is not the owner changes neither the
    owner nor the issuer set nor the updater set, whichever of the twelve
    entry points it is. *)
Theorem roles_change_only_by_owner sender now c s :
  sender <> RegistryV2.owner s ->
  RegistryV2.owner (run (Registry.call sender now c) s) = RegistryV2.owner s
  /\ RegistryV2.authorizedIssuers (run (Registry.call sender now c) s)
     = RegistryV2.authorizedIssuers s
  /\ RegistryV2.authorizedUpdaters (run (Registry.call sender now c) s)
     = RegistryV2.authorizedUpdaters s.
Proof.
  intros Hne. apply N.eqb_neq in Hne.
  set (P := fun s' : RegistryV2.State =>
              RegistryV2.owner s' = RegistryV2.owner s
              /\ RegistryV2.authorizedIssuers s' = RegistryV2.authorizedIssuers s
              /\ RegistryV2.authorizedUpdaters s' = RegistryV2.authorizedUpdaters s).
  assert (HP : P s) by done.
  destruct c; cbn [Registry.call].
  1-5: unfold Registry.addIssuer, Registry.removeIssuer, Registry.addUpdater,
         Registry.removeUpdater, Registry.transferOwnership;
       by rewrite (run_revert _ _ _ (owner_only_revert _ _ _ Hne)).
  all: apply (preserves_run P); [|exact HP];
    unfold_registry; preserves_structure; auto.
Qed.

(** X4. Nullifier marks are written by the two ledger operations only:
    no other registry entry point changes the global or any event
    partition. *)
Theorem ledger_change_only_by_ledger_writes sender now c s :
  (forall n, c <> Registry.CUseNullifier n) ->
  (forall e n, c <> Registry.CUseEventNullifier e n) ->
  RegistryV2.nullifierUsed (run (Registry.call sender now c) s)
  = RegistryV2.nullifierUsed s
  /\ RegistryV2.eventNullifierUsed (run (Registry.call sender now c) s)
     = RegistryV2.eventNullifierUsed s.
Proof.
  intros Hg He.
  set (P := fun s' : RegistryV2.State =>
              RegistryV2.nullifierUsed s' = RegistryV2.nullifierUsed s
              /\ RegistryV2.eventNullifierUsed s' = RegistryV2.eventNullifierUsed s).
  apply (preserves_run P); [|done].
  destruct c; cbn [Registry.call];
    try (by destruct (Hg nullifier)); try (by destruct (He eventId nullifier));
    unfold_registry; preserves_structure; auto.
Qed.

(** X5. A gateway verification, successful or not, writes nothing but
    nullifier marks: owner, roles, roots and both credential maps stay as
    they were. *)
Theorem gateway_writes_only_the_ledger g self sender c s :
  RegistryV2.owner (run (VerifierV2.call oracle g self sender c) s)
  = RegistryV2.owner s
  /\ RegistryV2.authorizedIssuers (run (VerifierV2.call oracle g self sender c) s)
     = RegistryV2.authorizedIssuers s
  /\ RegistryV2.authorizedUpdaters (run (VerifierV2.call oracle g self sender c) s)
     = RegistryV2.authorizedUpdaters s
  /\ RegistryV2.roots (run (VerifierV2.call oracle g self sender c) s)
     = RegistryV2.roots s
  /\ RegistryV2.credentialExists (run (VerifierV2.call oracle g self sender c) s)
     = RegistryV2.credentialExists s
  /\ RegistryV2.credentialRevoked (run (VerifierV2.call oracle g self sender c) s)
     = RegistryV2.credentialRevoked s.
Proof.
  unfold run.
  destruct (VerifierV2.call oracle g self sender c s) as [[[r s1] ev]|err] eqn:Hc;
    [|done].
  apply call_ok_inv in Hc as (_ & _ & ->). unfold mark.
  by destruct (VerifierV2.scope_of c =? 0).
Qed.

End RegistryFrames.

Lemma roots_change_only_by_updateRoots_witness :
  RegistryV2.roots
    (run (Registry.call deployer 1000 (Registry.CBatchRegisterCredentials [9; 10]))
       registry0)
  = RegistryV2.roots registry0.
Proof.
  apply (roots_change_only_by_updateRoots deployer 1000
           (Registry.CBatchRegisterCredentials [9; 10]) registry0).
  intros r v. discriminate.
Defined.

Lemma roles_change_only_by_owner_witness :
  RegistryV2.authorizedIssuers
    (run (Registry.call stranger 1000 (Registry.CAddIssuer stranger)) registry0)
  = RegistryV2.authorizedIssuers registry0.
Proof.
  apply (roles_change_only_by_owner stranger 1000
           (Registry.CAddIssuer stranger) registry0).
  discriminate.
Defined.

Lemma ledger_change_only_by_ledger_writes_witness :
  RegistryV2.nullifierUsed
    (run (Registry.call deployer 1000 (Registry.CRegisterCredential 9)) registry0)
  = RegistryV2.nullifierUsed registry0.
Proof.
  apply (ledger_change_only_by_ledger_writes deployer 1000
           (Registry.CRegisterCredential 9) registry0); intros; discriminate.
Defined.

Lemma addIssuer_spec sender a s :
  Registry.addIssuer sender a s
  = if sender =? RegistryV2.owner s
    then Ok (tt, RegistryV2.set_issuer a true s, [IssuerAdded a])
    else Revert NotOwner.
Proof.
  unfold Registry.addIssuer. unfold bind at 1. rewrite checkOwner_spec.
  by destruct (sender =? RegistryV2.owner s).
Qed.

Lemma removeIssuer_spec sender a s :
  Registry.removeIssuer sender a s
  = if sender =? RegistryV2.owner s
    then Ok (tt, RegistryV2.set_issuer a false s, [IssuerRemoved a])
    else Revert NotOwner.
Proof.
  unfold Registry.removeIssuer. unfold bind at 1. rewrite checkOwner_spec.
  by destruct (sender =? RegistryV2.owner s).
Qed.

Lemma transferOwnership_spec sender a s :
  Registry.transferOwnership sender a s
  = if sender =? RegistryV2.owner s
    then if a =? 0 then Revert InvalidAddress
         else Ok (tt, RegistryV2.set_owner a s, [])
    else Revert NotOwner.
Proof.
  unfold Registry.transferOwnership. unfold bind at 1. rewrite checkOwner_spec.
  destruct (sender =? RegistryV2.owner s); [|reflexivity].
  cbv [bind require]. by destruct (a =? 0).
Qed.

(** X6. What the owner grants and withdraws is what the issuer-only entry
    points enforce. Once the owner has added [a] as issuer, [a] registers
    any commitment that is not yet registered. Once the owner has removed
    [a], every issuer-only call from [a] reverts with "Not authorized
    issuer", and the removal changes no credential's validity. *)
Theorem issuer_grant_and_removal owner_ a s :
  owner_ = RegistryV2.owner s ->
  (forall c,
      outcome (Registry.registerCredential a c)
        (run (Registry.addIssuer owner_ a) s)
      = if mget (RegistryV2.credentialExists s) c
        then Revert AlreadyRegistered else Ok tt)
  /\ (forall c cs,
        let s' := run (Registry.removeIssuer owner_ a) s in
        Registry.registerCredential a c s' = Revert NotAuthorizedIssuer
        /\ Registry.revokeCredential a c s' = Revert NotAuthorizedIssuer
        /\ Registry.batchRegisterCredentials a cs s' = Revert NotAuthorizedIssuer
        /\ Registry.batchRevokeCredentials a cs s' = Revert NotAuthorizedIssuer
        /\ Registry.isCredentialValid s' c = Registry.isCredentialValid s c).
Proof.
  intros ->. split.
  - intros c. unfold run, outcome. rewrite addIssuer_spec, N.eqb_refl.
    rewrite registerCredential_spec. cbn. rewrite mget_insert_eq.
    by destruct (mget (RegistryV2.credentialExists s) c).
  - intros c cs. unfold run. rewrite removeIssuer_spec, N.eqb_refl. cbn zeta.
    assert (Hno : mget (RegistryV2.authorizedIssuers
                          (RegistryV2.set_issuer a false s)) a = false)
      by (cbn; apply mget_insert_eq).
    split; [by rewrite registerCredential_spec, Hno|].
    split; [by rewrite revokeCredential_spec, Hno|].
    split; [by apply issuer_only_revert|].
    split; [by apply issuer_only_revert|reflexivity].
Qed.

Lemma issuer_grant_and_removal_witness :
  outcome (Registry.registerCredential stranger 9)
    (run (Registry.addIssuer deployer stranger) registry0) = Ok tt
  /\ Registry.registerCredential deployer 9
       (run (Registry.removeIssuer deployer deployer) registry0)
     = Revert NotAuthorizedIssuer.
Proof.
  destruct (issuer_grant_and_removal deployer stranger registry0 eq_refl) as [H1 _].
  destruct (issuer_grant_and_removal deployer deployer registry0 eq_refl) as [_ H2].
  split; [apply (H1 9)|apply (H2 9 [])].
Defined.

(** X7. Handing over ownership moves the owner role and nothing else: the
    new owner is the address given, the zero address is refused, and the
    issuer and updater grants stay as they were, so the previous owner
    keeps the issuer and updater rights it had while its owner-only calls
    now revert. *)
Theorem transferOwnership_moves_owner_only sender newOwner s :
  sender = RegistryV2.owner s ->
  newOwner <> 0 ->
  newOwner <> sender ->
  let s' := run (Registry.transferOwnership sender newOwner) s in
  RegistryV2.owner s' = newOwner
  /\ RegistryV2.authorizedIssuers s' = RegistryV2.authorizedIssuers s
  /\ RegistryV2.authorizedUpdaters s' = RegistryV2.authorizedUpdaters s
  /\ Registry.transferOwnership sender 0 s = Revert InvalidAddress
  /\ (forall a,
        Registry.addIssuer sender a s' = Revert NotOwner
        /\ Registry.removeIssuer sender a s' = Revert NotOwner
        /\ Registry.addUpdater sender a s' = Revert NotOwner
        /\ Registry.removeUpdater sender a s' = Revert NotOwner
        /\ Registry.transferOwnership sender a s' = Revert NotOwner).
Proof.
  intros -> Hnz Hne. apply N.eqb_neq in Hnz. cbn zeta. unfold run.
  rewrite !transferOwnership_spec, N.eqb_refl, Hnz.
  split; [reflexivity|]. split; [reflexivity|]. split; [reflexivity|].
  split; [reflexivity|].
  assert (Hno : (RegistryV2.owner s
                 =? RegistryV2.owner (RegistryV2.set_owner newOwner s)) = false)
    by (cbn; apply N.eqb_neq; congruence).
  intros a. rewrite addIssuer_spec, removeIssuer_spec, Hno.
  repeat split; try reflexivity; by apply owner_only_revert.
Qed.

Lemma transferOwnership_moves_owner_only_witness :
  RegistryV2.owner (run (Registry.transferOwnership deployer stranger) registry0)
  = stranger
  /\ mget (RegistryV2.authorizedIssuers
             (run (Registry.transferOwnership deployer stranger) registry0))
          deployer = true.
Proof.
  destruct (transferOwnership_moves_owner_only deployer stranger registry0 eq_refl)
    as (H1 & H2 & _); [discriminate|discriminate|].
  split; [exact H1|]. rewrite H2. reflexivity.
Defined.

(** X8. The updater role is narrower than the issuer role: an account
    that is an updater but no issuer advances the roots, and each of its
    register, revoke and batch calls reverts with "Not authorized issuer". *)
Theorem updater_cannot_issue a now r v c cs s :
  mget (RegistryV2.authorizedUpdaters s) a = true ->
  mget (RegistryV2.authorizedIssuers s) a = false ->
  outcome (Registry.updateRoots a now r v) s = Ok tt
  /\ Registry.registerCredential a c s = Revert NotAuthorizedIssuer
  /\ Registry.revokeCredential a c s = Revert NotAuthorizedIssuer
  /\ Registry.batchRegisterCredentials a cs s = Revert NotAuthorizedIssuer
  /\ Registry.batchRevokeCredentials a cs s = Revert NotAuthorizedIssuer.
Proof.
  intros Hu Hi. unfold outcome.
  rewrite updateRoots_spec, Hu, registerCredential_spec, revokeCredential_spec, Hi.
  repeat split; try reflexivity; by apply issuer_only_revert.
Qed.

Lemma updater_cannot_issue_witness :
  outcome (Registry.updateRoots stranger 1000 111 222)
    (run (Registry.addUpdater deployer stranger) registry0) = Ok tt
  /\ Registry.registerCredential stranger 9
       (run (Registry.addUpdater deployer stranger) registry0)
     = Revert NotAuthorizedIssuer.
Proof.
  destruct (updater_cannot_issue stranger 1000 111 222 9 []
              (run (Registry.addUpdater deployer stranger) registry0))
    as (H1 & H2 & _); [vm_compute; reflexivity|vm_compute; reflexivity|].
  split; [exact H1|exact H2].
Defined.

Section RegistryHistory.

Variable oracle : N -> G16 -> list N -> OracleReply.

Lemma owner_nonzero_registry_call sender now c :
  preserves (fun s => RegistryV2.owner s <> 0) (Registry.call sender now c).
Proof.
  destruct c; cbn [Registry.call].
  5: { intros s a s' ev Hr HP. rewrite transferOwnership_spec in Hr.
       destruct (sender =? RegistryV2.owner s); [|discriminate].
       destruct (N.eqb_spec newOwner 0); [discriminate|].
       injection Hr as _ <- _. done. }
  all: unfold_registry; preserves_structure; auto.
Qed.

(** X9. The registry always has an owner: deployed by a non-zero account,
    its owner is non-zero after every sequence of transactions. *)
Theorem owner_never_zero deployer_ s :
  deployer_ <> 0 ->
  steps oracle (Registry.constructor deployer_) s ->
  RegistryV2.owner s <> 0.
Proof.
  intros Hd Hs.
  eapply (steps_preserve oracle (fun s => RegistryV2.owner s <> 0)); [| |exact Hs|done].
  - apply owner_nonzero_registry_call.
  - intros g self sender c s0 a s' ev Hc HP.
    apply call_ok_inv in Hc as (_ & _ & ->). unfold mark.
    by destruct (VerifierV2.scope_of c =? 0).
Qed.

(** X10. Registration is permanent: a commitment that is registered stays
    registered through every sequence of transactions; no entry point
    removes it. *)
Theorem registration_permanent c s s' :
  mget (RegistryV2.credentialExists s) c = true ->
  steps oracle s s' ->
  mget (RegistryV2.credentialExists s') c = true.
Proof.
  intros Hex Hs.
  by apply (stable_steps oracle _ s s' (exists_stable c)).
Qed.

(** X11. In every storage reachable from the constructor a revoked
    commitment is a registered one, so a valid credential is exactly a
    registered one that is not revoked, and an unregistered one is
    neither valid nor revoked. *)
Theorem revoked_only_if_registered s c :
  reachable oracle s ->
  (mget (RegistryV2.credentialRevoked s) c = true ->
   mget (RegistryV2.credentialExists s) c = true)
  /\ (mget (RegistryV2.credentialExists s) c = false ->
      Registry.isCredentialValid s c = false
      /\ mget (RegistryV2.credentialRevoked s) c = false).
Proof.
  intros Hr. pose proof (revoked_registered_reachable oracle s Hr c) as H.
  split; [exact H|]. intros Hex. unfold Registry.isCredentialValid. rewrite Hex.
  split; [reflexivity|].
  destruct (mget (RegistryV2.credentialRevoked s) c); [|reflexivity].
  rewrite H in Hex by reflexivity. discriminate.
Qed.

End RegistryHistory.

Lemma owner_never_zero_witness :
  RegistryV2.owner
    (run (Registry.call deployer 1000 (Registry.CTransferOwnership 0)) registry0)
  <> 0.
Proof.
  apply (owner_never_zero accept_all deployer); [discriminate|].
  eapply rtc_l; [|apply rtc_refl].
  apply (step_registry accept_all deployer 1000 (Registry.CTransferOwnership 0)).
Defined.

Lemma registration_permanent_witness :
  mget (RegistryV2.credentialExists
          (run (Registry.call deployer 1000 (Registry.CRevokeCredential 9))
             (run (Registry.registerCredential deployer 9) registry0))) 9 = true.
Proof.
  apply (registration_permanent accept_all 9
           (run (Registry.registerCredential deployer 9) registry0)).
  - vm_compute. reflexivity.
  - eapply rtc_l; [|apply rtc_refl].
    apply (step_registry accept_all deployer 1000 (Registry.CRevokeCredential 9)).
Defined.

Lemma revoked_only_if_registered_witness :
  Registry.isCredentialValid
    (run (Registry.call stranger 1000 (Registry.CRevokeCredential 9)) registry0) 9
  = false.
Proof.
  apply (revoked_only_if_registered accept_all
           (run (Registry.call stranger 1000 (Registry.CRevokeCredential 9)) registry0)
           9).
  - exists deployer. eapply rtc_l; [|apply rtc_refl].
    apply (step_registry accept_all stranger 1000 (Registry.CRevokeCredential 9)).
  - vm_compute. reflexivity.
Defined.

(** ** Batches, element by element *)


Lemma bool_decide_cons_eq (c : N) cs : bool_decide (c ∈ c :: cs) = true.
Proof. apply bool_decide_eq_true_2, elem_of_cons. by left. Qed.

Lemma bool_decide_cons_ne (c c0 : N) cs :
  c <> c0 -> bool_decide (c ∈ c0 :: cs) = bool_decide (c ∈ cs).
Proof.
  intros Hne. apply bool_decide_ext. rewrite elem_of_cons. tauto.
Qed.

Lemma elem_of_tail (c c0 : N) cs : c ∈ cs -> c ∈ c0 :: cs.
Proof. intros H. apply elem_of_cons. by right. Qed.

Lemma elem_of_head (c : N) cs : c ∈ c :: cs.
Proof. apply elem_of_cons. by left. Qed.

Lemma batchRegister_loop_result sender cs s :
  exists s' ev,
    for_each cs (fun c =>
        ex <- read RegistryV2.credentialExists ;;
        if negb (mget ex c)
        then modify (RegistryV2.set_credentialExists c) ;;
             emit (CredentialRegistered c sender)
        else ret tt) s = Ok (tt, s', ev)
    /\ (forall c, mget (RegistryV2.credentialExists s') c
                  = mget (RegistryV2.credentialExists s) c || bool_decide (c ∈ cs))
    /\ RegistryV2.credentialRevoked s' = RegistryV2.credentialRevoked s
    /\ RegistryV2.authorizedIssuers s' = RegistryV2.authorizedIssuers s
    /\ ((forall c, c ∈ cs -> mget (RegistryV2.credentialExists s) c = true) ->
        s' = s /\ ev = []).
Proof.
  revert s. induction cs as [|c0 cs IH]; intros s.
  - exists s, []. repeat split; try done. intros c. by rewrite orb_false_r.
  - cbn [for_each]. unfold bind at 1. rewrite batchRegister_body_spec.
    destruct (mget (RegistryV2.credentialExists s) c0) eqn:Hc0.
    + destruct (IH s) as (s' & ev & -> & Hex & Hrv & Hiss & Hid).
      exists s', ev. split; [reflexivity|]. split; [|split; [done|split; [done|]]].
      * intros c. rewrite Hex. destruct (decide (c = c0)) as [->|Hne].
        -- by rewrite Hc0.
        -- by rewrite (bool_decide_cons_ne _ _ _ Hne).
      * intros Hall. apply Hid. intros c Hc. by apply Hall, elem_of_tail.
    + destruct (IH (RegistryV2.set_credentialExists c0 s))
        as (s' & ev & -> & Hex & Hrv & Hiss & Hid).
      exists s', (CredentialRegistered c0 sender :: ev).
      split; [reflexivity|]. split; [|split; [done|split; [done|]]].
      * intros c. rewrite Hex. cbn. destruct (decide (c = c0)) as [->|Hne].
        -- by rewrite mget_insert_eq, Hc0, bool_decide_cons_eq.
        -- rewrite mget_insert_ne by done.
           by rewrite (bool_decide_cons_ne _ _ _ Hne).
      * intros Hall. rewrite Hall in Hc0 by apply elem_of_head. discriminate.
Qed.

Lemma batchRevoke_loop_result sender cs s :
  exists s' ev,
    for_each cs (fun c =>
        ex <- read RegistryV2.credentialExists ;;
        rv <- read RegistryV2.credentialRevoked ;;
        if mget ex c && negb (mget rv c)
        then modify (RegistryV2.set_credentialRevoked c) ;;
             emit (CredentialRevoked c sender)
        else ret tt) s = Ok (tt, s', ev)
    /\ (forall c, mget (RegistryV2.credentialRevoked s') c
                  = mget (RegistryV2.credentialRevoked s) c
                    || (bool_decide (c ∈ cs)
                        && mget (RegistryV2.credentialExists s) c))
    /\ RegistryV2.credentialExists s' = RegistryV2.credentialExists s
    /\ RegistryV2.authorizedIssuers s' = RegistryV2.authorizedIssuers s
    /\ ((forall c, c ∈ cs ->
           mget (RegistryV2.credentialExists s) c
           && negb (mget (RegistryV2.credentialRevoked s) c) = false) ->
        s' = s /\ ev = []).
Proof.
  revert s. induction cs as [|c0 cs IH]; intros s.
  - exists s, []. repeat split; try done. intros c. by rewrite orb_false_r.
  - cbn [for_each]. unfold bind at 1. rewrite batchRevoke_body_spec.
    destruct (mget (RegistryV2.credentialExists s) c0
              && negb (mget (RegistryV2.credentialRevoked s) c0)) eqn:Hc0.
    + apply andb_true_iff in Hc0 as [Hex0 Hrv0]. apply negb_true_iff in Hrv0.
      destruct (IH (RegistryV2.set_credentialRevoked c0 s))
        as (s' & ev & -> & Hrv & Hex & Hiss & Hid).
      exists s', (CredentialRevoked c0 sender :: ev).
      split; [reflexivity|]. split; [|split; [done|split; [done|]]].
      * intros c. rewrite Hrv. cbn. destruct (decide (c = c0)) as [->|Hne].
        -- by rewrite mget_insert_eq, Hex0, Hrv0, bool_decide_cons_eq.
        -- rewrite mget_insert_ne by done.
           by rewrite (bool_decide_cons_ne _ _ _ Hne).
      * intros Hall. specialize (Hall c0 (elem_of_head _ _)).
        rewrite Hex0, Hrv0 in Hall. discriminate.
    + destruct (IH s) as (s' & ev & -> & Hrv & Hex & Hiss & Hid).
      exists s', ev. split; [reflexivity|]. split; [|split; [done|split; [done|]]].
      * intros c. rewrite Hrv. destruct (decide (c = c0)) as [->|Hne].
        -- rewrite bool_decide_cons_eq.
           destruct (mget (RegistryV2.credentialRevoked s) c0),
                    (mget (RegistryV2.credentialExists s) c0); try done.
           cbn. by rewrite andb_false_r.
        -- by rewrite (bool_decide_cons_ne _ _ _ Hne).
      * intros Hall. apply Hid. intros c Hc. by apply Hall, elem_of_tail.
Qed.

(** X12. After an issuer's [batchRegisterCredentials], the registered
    commitments are exactly those registered before together with those in
    the list (duplicates in the list included once); the revoked marks are
    untouched. *)
Theorem batchRegister_registers_the_list sender cs s c :
  mget (RegistryV2.authorizedIssuers s) sender = true ->
  mget (RegistryV2.credentialExists
          (run (Registry.batchRegisterCredentials sender cs) s)) c
  = mget (RegistryV2.credentialExists s) c || bool_decide (c ∈ cs)
  /\ RegistryV2.credentialRevoked
       (run (Registry.batchRegisterCredentials sender cs) s)
     = RegistryV2.credentialRevoked s.
Proof.
  intros Hiss. unfold run, Registry.batchRegisterCredentials.
  rewrite (bind_step _ _ _ _ _ _ (checkIssuer_ok _ _ Hiss)).
  destruct (batchRegister_loop_result sender cs s) as (s' & ev & -> & Hex & Hrv & _).
  split; [apply Hex|exact Hrv].
Qed.

(** X13. After an issuer's [batchRevokeCredentials], the revoked
    commitments are exactly those revoked before together with the list's
    commitments that are registered; unregistered ones in the list are
    left unrevoked, and no registration is touched. *)
Theorem batchRevoke_revokes_the_registered sender cs s c :
  mget (RegistryV2.authorizedIssuers s) sender = true ->
  mget (RegistryV2.credentialRevoked
          (run (Registry.batchRevokeCredentials sender cs) s)) c
  = mget (RegistryV2.credentialRevoked s) c
    || (bool_decide (c ∈ cs) && mget (RegistryV2.credentialExists s) c)
  /\ RegistryV2.credentialExists
       (run (Registry.batchRevokeCredentials sender cs) s)
     = RegistryV2.credentialExists s.
Proof.
  intros Hiss. unfold run, Registry.batchRevokeCredentials.
  rewrite (bind_step _ _ _ _ _ _ (checkIssuer_ok _ _ Hiss)).
  destruct (batchRevoke_loop_result sender cs s) as (s' & ev & -> & Hrv & Hex & _).
  split; [apply Hrv|exact Hex].
Qed.

(** X14. Batches are idempotent: run again on its own result, an issuer's
    batch succeeds, writes nothing and emits no event. *)
Theorem batch_twice_is_once sender cs s :
  mget (RegistryV2.authorizedIssuers s) sender = true ->
  Registry.batchRegisterCredentials sender cs
    (run (Registry.batchRegisterCredentials sender cs) s)
  = Ok (tt, run (Registry.batchRegisterCredentials sender cs) s, [])
  /\ Registry.batchRevokeCredentials sender cs
       (run (Registry.batchRevokeCredentials sender cs) s)
     = Ok (tt, run (Registry.batchRevokeCredentials sender cs) s, []).
Proof.
  intros Hiss. split.
  - unfold run at 1 2. unfold Registry.batchRegisterCredentials at 2 3.
    rewrite (bind_step _ _ _ _ _ _ (checkIssuer_ok _ _ Hiss)).
    destruct (batchRegister_loop_result sender cs s)
      as (s' & ev & -> & Hex & _ & Hiss' & _).
    unfold Registry.batchRegisterCredentials.
    rewrite (bind_step _ _ _ _ _ _ (checkIssuer_ok sender s' ltac:(by rewrite Hiss'))).
    destruct (batchRegister_loop_result sender cs s') as (s2 & ev2 & -> & _ & _ & _ & Hid).
    destruct Hid as [-> ->]; [|reflexivity].
    intros c Hc. rewrite Hex. rewrite (bool_decide_eq_true_2 _ Hc). apply orb_true_r.
  - unfold run at 1 2. unfold Registry.batchRevokeCredentials at 2 3.
    rewrite (bind_step _ _ _ _ _ _ (checkIssuer_ok _ _ Hiss)).
    destruct (batchRevoke_loop_result sender cs s)
      as (s' & ev & -> & Hrv & Hex & Hiss' & _).
    unfold Registry.batchRevokeCredentials.
    rewrite (bind_step _ _ _ _ _ _ (checkIssuer_ok sender s' ltac:(by rewrite Hiss'))).
    destruct (batchRevoke_loop_result sender cs s') as (s2 & ev2 & -> & _ & _ & _ & Hid).
    destruct Hid as [-> ->]; [|reflexivity].
    intros c Hc. rewrite Hrv, Hex. rewrite (bool_decide_eq_true_2 _ Hc). cbn.
    destruct (mget (RegistryV2.credentialExists s) c); [|reflexivity].
    by rewrite orb_true_r.
Qed.

Lemma batchRegister_registers_the_list_witness :
  mget (RegistryV2.credentialExists
          (run (Registry.batchRegisterCredentials deployer [9; 10; 9]) registry0)) 10
  = true.
Proof.
  destruct (batchRegister_registers_the_list deployer [9; 10; 9] registry0 10)
    as [H _]; [vm_compute; reflexivity|].
  rewrite H. vm_compute. reflexivity.
Defined.

Lemma batchRevoke_revokes_the_registered_witness :
  mget (RegistryV2.credentialRevoked
          (run (Registry.batchRevokeCredentials deployer [9; 10])
             (run (Registry.registerCredential deployer 9) registry0))) 10
  = false.
Proof.
  destruct (batchRevoke_revokes_the_registered deployer [9; 10]
              (run (Registry.registerCredential deployer 9) registry0) 10)
    as [H _]; [vm_compute; reflexivity|].
  rewrite H. vm_compute. reflexivity.
Defined.

Lemma batch_twice_is_once_witness :
  Registry.batchRegisterCredentials deployer [9; 10; 9]
    (run (Registry.batchRegisterCredentials deployer [9; 10; 9]) registry0)
  = Ok (tt, run (Registry.batchRegisterCredentials deployer [9; 10; 9]) registry0, []).
Proof.
  apply (batch_twice_is_once deployer [9; 10; 9] registry0).
  vm_compute. reflexivity.
Defined.

(** * Further properties of the gateway *)

(** ** Decoding *)

Lemma be_N_snoc b x : be_N (b ++ [x]) = be_N b * 256 + Byte.to_N x.
Proof. unfold be_N. by rewrite fold_left_app. Qed.

Lemma be_N_bound b : be_N b < 256 ^ N.of_nat (length b).
Proof.
  induction b as [|x b IH] using rev_ind; [reflexivity|].
  rewrite be_N_snoc, length_app, Nat.add_comm. cbn [length Nat.add].
  rewrite Nat2N.inj_succ, N.pow_succ_r'.
  pose proof (Byte.to_N_bounded x). lia.
Qed.

Lemma to_N_byte_of n : n < 256 -> Byte.to_N (Fixtures.byte_of n) = n.
Proof.
  intros Hn. unfold Fixtures.byte_of.
  destruct (Byte.of_N n) as [b|] eqn:E.
  - by apply Byte.to_of_N.
  - apply Byte.of_N_None_iff in E. lia.
Qed.

Lemma be_N_digits n w :
  be_N (map (fun i => Fixtures.byte_of
                        ((w / 256 ^ N.of_nat (n - 1 - i)) mod 256)) (seq 0 n))
  = w mod 256 ^ N.of_nat n.
Proof.
  revert w. induction n as [|n IH]; intros w.
  - cbn. by rewrite N.mod_1_r.
  - rewrite seq_S, map_app. cbn [map Nat.add]. rewrite be_N_snoc.
    replace (S n - 1 - n)%nat with 0%nat by lia.
    rewrite N.pow_0_r, N.div_1_r, to_N_byte_of by (apply N.mod_lt; discriminate).
    rewrite (map_ext_in _
               (fun i => Fixtures.byte_of
                           (((w / 256) / 256 ^ N.of_nat (n - 1 - i)) mod 256))).
    + rewrite IH, Nat2N.inj_succ, N.pow_succ_r'.
      rewrite (N.Div0.mod_mul_r w 256). lia.
    + intros i Hi. apply in_seq in Hi. do 2 f_equal.
      replace (S n - 1 - i)%nat with (S (n - 1 - i)) by lia.
      rewrite Nat2N.inj_succ, N.pow_succ_r', N.Div0.div_div. reflexivity.
Qed.

Lemma be_N_word_bytes w : w < 2 ^ 256 -> be_N (Fixtures.word_bytes w) = w.
Proof.
  intros Hw. unfold Fixtures.word_bytes.
  pose proof (be_N_digits 32 w) as H. change (32 - 1)%nat with 31%nat in H.
  rewrite H. apply N.mod_small. exact Hw.
Qed.

Lemma length_word_bytes w : length (Fixtures.word_bytes w) = 32%nat.
Proof. unfold Fixtures.word_bytes. by rewrite length_map, length_seq. Qed.

Lemma length_concat_words ws :
  length (concat (map Fixtures.word_bytes ws)) = (32 * length ws)%nat.
Proof.
  induction ws as [|w ws IH]; [reflexivity|].
  cbn [map concat length]. rewrite length_app, length_word_bytes, IH. lia.
Qed.

Lemma word_at_take b off : word_at b off = be_N (take 32 (drop off b)).
Proof. unfold word_at, slice. by replace (off + 32 - off)%nat with 32%nat by lia. Qed.

Lemma word_at_concat ws extra i w :
  ws !! i = Some w -> w < 2 ^ 256 ->
  word_at (concat (map Fixtures.word_bytes ws) ++ extra) (32 * i) = w.
Proof.
  rewrite word_at_take.
  revert i. induction ws as [|w0 ws IH]; intros i Hi Hw; [done|].
  cbn [map concat]. rewrite <- app_assoc.
  destruct i as [|i].
  - injection Hi as ->. replace (32 * 0)%nat with 0%nat by lia. rewrite drop_0.
    rewrite (take_app_length' (Fixtures.word_bytes w))
      by (by rewrite length_word_bytes).
    by apply be_N_word_bytes.
  - cbn [lookup] in Hi.
    replace (32 * S i)%nat with (length (Fixtures.word_bytes w0) + 32 * i)%nat
      by (rewrite length_word_bytes; lia).
    rewrite drop_app_add'; [|reflexivity].
    by apply IH.
Qed.

(** X15. [_decodeProof] reverts with "Proof too short" exactly on blobs of
    fewer than 256 bytes; on any other blob it yields one public input per
    complete 32-byte word after the first 256 bytes, dropping an incomplete
    tail, and every decoded word is below 2^256. *)
Theorem decodeProof_shape proof :
  match _decodeProof proof with
  | Revert e => e = ProofTooShort /\ (length proof < 256)%nat
  | Ok (abc, publicInputs) =>
      (256 <= length proof)%nat
      /\ length publicInputs = ((length proof - 256) / 32)%nat
      /\ Forall (fun w => w < 2 ^ 256) publicInputs
      /\ Forall (fun w => w < 2 ^ 256) (G16_words abc)
  end.
Proof.
  assert (Hword : forall off, word_at proof off < 2 ^ 256).
  { intros off. unfold word_at, slice.
    eapply N.lt_le_trans; [apply be_N_bound|].
    change (2 ^ 256) with (256 ^ N.of_nat 32).
    apply N.pow_le_mono_r; [discriminate|].
    rewrite length_take. lia. }
  unfold _decodeProof. destruct (Nat.ltb_spec (length proof) 256) as [Hlt|Hge].
  - split; [reflexivity|exact Hlt].
  - split; [exact Hge|]. split; [by rewrite length_map, length_seq|].
    split.
    + apply Forall_fmap, Forall_true. intros i. apply Hword.
    + unfold G16_words. cbn [pi_a pi_b pi_c fst snd].
      repeat (apply Forall_cons; split; [apply Hword|]). apply Forall_nil_2.
Qed.

(** X16. Decoding inverts packing: a blob made of the eight point words
    and the public inputs, each below 2^256 and written as 32 big-endian
    bytes, decodes to exactly those points and inputs, also when fewer
    than 32 stray bytes follow. *)
Theorem decodeProof_pack abc inputs extra :
  Forall (fun w => w < 2 ^ 256) (G16_words abc) ->
  Forall (fun w => w < 2 ^ 256) inputs ->
  (length extra < 32)%nat ->
  _decodeProof (pack_proof abc inputs ++ extra) = Ok (abc, inputs).
Proof.
  intros Habc Hin Hextra.
  assert (Hall : Forall (fun w => w < 2 ^ 256) (G16_words abc ++ inputs))
    by (by apply Forall_app).
  assert (Hlen : length (pack_proof abc inputs ++ extra)
                 = (256 + 32 * length inputs + length extra)%nat).
  { unfold pack_proof. rewrite length_app, length_concat_words, length_app.
    cbn [length]. lia. }
  assert (Hw : forall i off w,
             off = (32 * i)%nat ->
             (G16_words abc ++ inputs) !! i = Some w ->
             word_at (pack_proof abc inputs ++ extra) off = w).
  { intros i off w -> Hi. apply word_at_concat; [exact Hi|].
    rewrite Forall_lookup in Hall. by apply (Hall i). }
  unfold _decodeProof. rewrite Hlen.
  destruct (Nat.ltb_spec (256 + 32 * length inputs + length extra) 256); [lia|].
  replace ((256 + 32 * length inputs + length extra - 256) / 32)%nat
    with (length inputs).
  2: { replace (256 + 32 * length inputs + length extra - 256)%nat
         with (length extra + length inputs * 32)%nat by lia.
       rewrite Nat.div_add by lia. rewrite Nat.div_small by lia. reflexivity. }
  f_equal. f_equal.
  - destruct abc as [[a0 a1] [[b00 b01] [b10 b11]] [c0 c1]].
    cbn [G16_words pi_a pi_b pi_c fst snd] in Hw.
    rewrite (Hw 0%nat 0%nat a0), (Hw 1%nat 32%nat a1), (Hw 2%nat 64%nat b00),
      (Hw 3%nat 96%nat b01), (Hw 4%nat 128%nat b10), (Hw 5%nat 160%nat b11),
      (Hw 6%nat 192%nat c0), (Hw 7%nat 224%nat c1) by reflexivity.
    reflexivity.
  - apply list_eq. intros i. rewrite list_lookup_fmap.
    destruct (inputs !! i) as [w|] eqn:Hi.
    + rewrite lookup_seq_lt by (by apply lookup_lt_Some in Hi).
      cbv [fmap option_fmap option_map]. cbv beta.
      f_equal. apply (Hw (8 + i)%nat); [lia|].
      rewrite lookup_app_r by (cbn; lia). cbn [G16_words length].
      by replace (8 + i - 8)%nat with i by lia.
    + rewrite lookup_seq_ge by (by apply lookup_ge_None in Hi). reflexivity.
Qed.

Lemma decodeProof_pack_witness :
  _decodeProof
    (pack_proof {| pi_a := (1, 2); pi_b := ((3, 4), (5, 6)); pi_c := (7, 8) |}
       [18; 2 ^ 256 - 1] ++ [Byte.xff; Byte.x00])
  = Ok ({| pi_a := (1, 2); pi_b := ((3, 4), (5, 6)); pi_c := (7, 8) |},
        [18; 2 ^ 256 - 1]).
Proof.
  apply decodeProof_pack.
  - repeat (apply Forall_cons; split; [reflexivity|]). apply Forall_nil_2.
  - repeat (apply Forall_cons; split; [reflexivity|]). apply Forall_nil_2.
  - cbn. lia.
Defined.

(** ** What a successful verification certifies *)

Section GatewaySuccess.

Variable oracle : N -> G16 -> list N -> OracleReply.

Lemma verifyGroth16_true verifier abc inputs :
  VerifierV2._verifyGroth16 oracle verifier abc inputs = Ok true ->
  oracle verifier abc inputs = ReturnedBool true.
Proof.
  unfold VerifierV2._verifyGroth16.
  destruct (oracle verifier abc inputs) as [| |[|]|]; intros H; try discriminate H.
  reflexivity.
Qed.

Lemma index_lookup (l : list N) i x : index l i = Ok x -> l !! N.to_nat i = Some x.
Proof. unfold index. destruct (l !! N.to_nat i); intros [= ->]; reflexivity. Qed.

Lemma sub_checked_ok a b i : sub_checked a b = Ok i -> b <= a /\ i = a - b.
Proof.
  unfold sub_checked. destruct (N.ltb_spec a b); intros [= <-]. split; [done|done].
Qed.

Lemma age_gates_inv g m e proof s n b s' ev :
  VerifierV2.age_gates oracle g m e proof s = Ok ((n, b), s', ev) ->
  exists abc publicInputs in0,
    _decodeProof proof = Ok (abc, publicInputs)
    /\ VerifierV2.ageVerifier g <> 0
    /\ 7 <= len publicInputs
    /\ publicInputs !! 0%nat = Some in0 /\ m <= in0
    /\ publicInputs !! 4%nat = Some (RegistryV2.registryRoot (RegistryV2.roots s))
    /\ publicInputs !! 5%nat = Some (RegistryV2.revocationRoot (RegistryV2.roots s))
    /\ publicInputs !! 6%nat = Some e
    /\ oracle (VerifierV2.ageVerifier g) abc publicInputs = ReturnedBool true
    /\ publicInputs !! N.to_nat (len publicInputs - 2) = Some n
    /\ publicInputs !! N.to_nat (len publicInputs - 1) = Some b.
Proof.
  intros Hg. unfold VerifierV2.age_gates in Hg. tx_inv.
  repeat match goal with
         | H : (_ =? _) = true |- _ => apply N.eqb_eq in H; subst
         | H : (_ <=? _) = true |- _ => apply N.leb_le in H
         | H : negb _ = true |- _ => apply negb_true_iff, N.eqb_neq in H
         | H : (_, _) = (_, _) |- _ => inversion H; subst; clear H
         | H : sub_checked _ _ = Ok _ |- _ => apply sub_checked_ok in H as [? ->]
         | H : index _ _ = Ok _ |- _ => apply index_lookup in H
         | H : VerifierV2._verifyGroth16 _ _ _ _ = Ok _ |- _ =>
             apply verifyGroth16_true in H
         end.
  change (N.to_nat 0) with 0%nat in *. change (N.to_nat 1) with 1%nat in *.
  change (N.to_nat 4) with 4%nat in *. change (N.to_nat 5) with 5%nat in *.
  change (N.to_nat 6) with 6%nat in *.
  eauto 20.
Qed.

Lemma passport_gates_inv g proof s n c dn da dg s' ev :
  VerifierV2.passport_gates oracle g proof s = Ok ((n, c, dn, da, dg), s', ev) ->
  exists abc publicInputs,
    _decodeProof proof = Ok (abc, publicInputs)
    /\ VerifierV2.passportVerifier g <> 0
    /\ 5 <= len publicInputs
    /\ publicInputs !! 0%nat = Some (RegistryV2.registryRoot (RegistryV2.roots s))
    /\ publicInputs !! 1%nat = Some (RegistryV2.revocationRoot (RegistryV2.roots s))
    /\ oracle (VerifierV2.passportVerifier g) abc publicInputs = ReturnedBool true
    /\ publicInputs !! N.to_nat (len publicInputs - 5) = Some n
    /\ publicInputs !! N.to_nat (len publicInputs - 4) = Some c
    /\ publicInputs !! N.to_nat (len publicInputs - 3) = Some dn
    /\ publicInputs !! N.to_nat (len publicInputs - 2) = Some da
    /\ publicInputs !! N.to_nat (len publicInputs - 1) = Some dg.
Proof.
  intros Hg. unfold VerifierV2.passport_gates in Hg. tx_inv.
  repeat match goal with
         | H : (_ =? _) = true |- _ => apply N.eqb_eq in H; subst
         | H : negb _ = true |- _ => apply negb_true_iff, N.eqb_neq in H
         | H : (_, _) = (_, _) |- _ => inversion H; subst; clear H
         | H : sub_checked _ _ = Ok _ |- _ => apply sub_checked_ok in H as [? ->]
         | H : index _ _ = Ok _ |- _ => apply index_lookup in H
         | H : VerifierV2._verifyGroth16 _ _ _ _ = Ok _ |- _ =>
             apply verifyGroth16_true in H
         end.
  change (N.to_nat 0) with 0%nat in *. change (N.to_nat 1) with 1%nat in *.
  change (N.to_nat 4) with 4%nat in *. change (N.to_nat 5) with 5%nat in *.
  change (N.to_nat 6) with 6%nat in *.
  eauto 20.
Qed.

(** X17. A successful [verifyAgeWithNullifier] certifies all of: the age
    verifier is configured; the blob decodes to at least seven public
    inputs; the first input is at least the requested minimum age; inputs
    4, 5 and 6 are the registry's current two roots and the caller's
    scope; the oracle at the age verifier's address answered [true] for
    exactly this proof and these inputs; the result carries the last two
    inputs as nullifier and blinded commitment; the nullifier was unused in
    the scope's partition and is now marked there; and the events are the
    ledger's event followed by [ProofVerified] with the caller, type 0,
    the nullifier and the scope. *)
Theorem verifyAge_postcondition g self sender m e proof s r s1 ev :
  VerifierV2.verifyAgeWithNullifier oracle g self sender m e proof s
    = Ok (r, s1, ev) ->
  exists abc publicInputs in0,
    _decodeProof proof = Ok (abc, publicInputs)
    /\ VerifierV2.ageVerifier g <> 0
    /\ 7 <= len publicInputs
    /\ publicInputs !! 0%nat = Some in0 /\ m <= in0
    /\ publicInputs !! 4%nat = Some (RegistryV2.registryRoot (RegistryV2.roots s))
    /\ publicInputs !! 5%nat = Some (RegistryV2.revocationRoot (RegistryV2.roots s))
    /\ publicInputs !! 6%nat = Some e
    /\ oracle (VerifierV2.ageVerifier g) abc publicInputs = ReturnedBool true
    /\ VerifierV2.valid r = true
    /\ publicInputs !! N.to_nat (len publicInputs - 2)
       = Some (VerifierV2.nullifier r)
    /\ publicInputs !! N.to_nat (len publicInputs - 1)
       = Some (VerifierV2.blindedCommitment r)
    /\ consumed s e (VerifierV2.nullifier r) = false
    /\ s1 = mark e (VerifierV2.nullifier r) s
    /\ ev = [if e =? 0 then NullifierUsed (VerifierV2.nullifier r) self
             else EventNullifierUsed e (VerifierV2.nullifier r) self;
             ProofVerified sender 0 (VerifierV2.nullifier r) e].
Proof.
  intros Hc.
  destruct (VerifierV2.age_gates oracle g m e proof s) as [[[[n b] s'] ev']|err] eqn:Hg.
  2: { rewrite verifyAge_split, (bind_revert_l _ _ _ _ Hg) in Hc. discriminate. }
  pose proof Hg as Hv. apply age_gates_view in Hv as [-> ->].
  rewrite (verifyAge_after_gates _ _ self sender _ _ _ _ _ _ Hg) in Hc.
  destruct (consumed s e n) eqn:Hn; [discriminate|].
  injection Hc as <- <- <-.
  apply age_gates_inv in Hg
    as (abc & inputs & in0 & H1 & H2 & H3 & H4 & H5 & H6 & H7 & H8 & H9 & H10 & H11).
  exists abc, inputs, in0. cbn [VerifierV2.valid VerifierV2.nullifier
                                  VerifierV2.blindedCommitment].
  repeat (split; [assumption || reflexivity|]). reflexivity.
Qed.

(** X18. A successful [verifyPassportDisclosure] certifies all of: the
    passport verifier is configured; the blob decodes to at least five
    public inputs; inputs 0 and 1 are the registry's current two roots;
    the oracle at the passport verifier's address answered [true] for
    exactly this proof and these inputs; the last five inputs are returned
    as nullifier, commitment, nationality, age threshold and gender; the
    nullifier was unused in the partition of the caller's scope and is now
    marked there; and the events are the ledger's event followed by
    [ProofVerified] with the caller, type 1, the nullifier and the scope. *)
Theorem verifyPassport_postcondition g self sender e proof s r dn da dg s1 ev :
  VerifierV2.verifyPassportDisclosure oracle g self sender e proof s
    = Ok ((r, dn, da, dg), s1, ev) ->
  exists abc publicInputs,
    _decodeProof proof = Ok (abc, publicInputs)
    /\ VerifierV2.passportVerifier g <> 0
    /\ 5 <= len publicInputs
    /\ publicInputs !! 0%nat = Some (RegistryV2.registryRoot (RegistryV2.roots s))
    /\ publicInputs !! 1%nat = Some (RegistryV2.revocationRoot (RegistryV2.roots s))
    /\ oracle (VerifierV2.passportVerifier g) abc publicInputs = ReturnedBool true
    /\ VerifierV2.valid r = true
    /\ publicInputs !! N.to_nat (len publicInputs - 5)
       = Some (VerifierV2.nullifier r)
    /\ publicInputs !! N.to_nat (len publicInputs - 4)
       = Some (VerifierV2.blindedCommitment r)
    /\ publicInputs !! N.to_nat (len publicInputs - 3) = Some dn
    /\ publicInputs !! N.to_nat (len publicInputs - 2) = Some da
    /\ publicInputs !! N.to_nat (len publicInputs - 1) = Some dg
    /\ consumed s e (VerifierV2.nullifier r) = false
    /\ s1 = mark e (VerifierV2.nullifier r) s
    /\ ev = [if e =? 0 then NullifierUsed (VerifierV2.nullifier r) self
             else EventNullifierUsed e (VerifierV2.nullifier r) self;
             ProofVerified sender 1 (VerifierV2.nullifier r) e].
Proof.
  intros Hc.
  destruct (VerifierV2.passport_gates oracle g proof s)
    as [[[[[[[n c] dn'] da'] dg'] s'] ev']|err] eqn:Hg.
  2: { rewrite verifyPassport_split, (bind_revert_l _ _ _ _ Hg) in Hc. discriminate. }
  pose proof Hg as Hv. apply passport_gates_view in Hv as [-> ->].
  rewrite (verifyPassport_after_gates _ _ self sender e _ _ _ _ _ _ _ Hg) in Hc.
  destruct (consumed s e n) eqn:Hn; [discriminate|].
  injection Hc as <- <- <- <- <- <-.
  apply passport_gates_inv in Hg
    as (abc & inputs & H1 & H2 & H3 & H4 & H5 & H6 & H7 & H8 & H9 & H10 & H11).
  exists abc, inputs. cbn [VerifierV2.valid VerifierV2.nullifier
                             VerifierV2.blindedCommitment].
  repeat (split; [assumption || reflexivity|]). reflexivity.
Qed.

(** X19. The advisory entry point agrees with the authoritative one where
    the latter accepts: whenever [verifyAgeWithNullifier] succeeds,
    [verifyProofOnly] with the age verifier's address answers [true] for
    the same blob, before and after the consumption. *)
Theorem verifyProofOnly_true_where_verifyAge_succeeds
    g self sender m e proof s r s1 ev :
  VerifierV2.verifyAgeWithNullifier oracle g self sender m e proof s
    = Ok (r, s1, ev) ->
  VerifierV2.verifyProofOnly oracle (VerifierV2.ageVerifier g) proof s
    = Ok (true, s, [])
  /\ VerifierV2.verifyProofOnly oracle (VerifierV2.ageVerifier g) proof s1
     = Ok (true, s1, []).
Proof.
  intros Hc.
  destruct (VerifierV2.age_gates oracle g m e proof s) as [[[[n b] s'] ev']|err] eqn:Hg.
  2: { rewrite verifyAge_split, (bind_revert_l _ _ _ _ Hg) in Hc. discriminate. }
  apply age_gates_inv in Hg as (abc & inputs & in0 & H1 & _ & _ & _ & _ & _ & _ & _ & H9 & _).
  unfold VerifierV2.verifyProofOnly, bind, lift. rewrite H1.
  unfold VerifierV2._verifyGroth16. rewrite H9. split; reflexivity.
Qed.

(** X20. The length check of the age entry point admits statements whose
    output slots overlap the public inputs. When a successful call was
    given exactly seven inputs, the nullifier it consumed is the
    registry's current revocation root and the blinded commitment it
    returned is the caller's scope; with exactly eight inputs the
    nullifier is the caller's scope. *)
Theorem verifyAge_short_statement_overlap
    g self sender m e proof s r s1 ev abc publicInputs :
  VerifierV2.verifyAgeWithNullifier oracle g self sender m e proof s
    = Ok (r, s1, ev) ->
  _decodeProof proof = Ok (abc, publicInputs) ->
  (length publicInputs = 7%nat ->
   VerifierV2.nullifier r = RegistryV2.revocationRoot (RegistryV2.roots s)
   /\ VerifierV2.blindedCommitment r = e)
  /\ (length publicInputs = 8%nat -> VerifierV2.nullifier r = e).
Proof.
  intros Hc Hd.
  destruct (VerifierV2.age_gates oracle g m e proof s) as [[[[n b] s'] ev']|err] eqn:Hg.
  2: { rewrite verifyAge_split, (bind_revert_l _ _ _ _ Hg) in Hc. discriminate. }
  pose proof Hg as Hv. apply age_gates_view in Hv as [-> ->].
  rewrite (verifyAge_after_gates _ _ self sender _ _ _ _ _ _ Hg) in Hc.
  destruct (consumed s e n) eqn:Hcons; [discriminate|].
  injection Hc as <- <- <-.
  apply age_gates_inv in Hg
    as (abc' & inputs & in0 & H1 & _ & _ & _ & _ & _ & H5 & H6 & _ & Hn & Hb).
  cbn [VerifierV2.nullifier VerifierV2.blindedCommitment].
  rewrite Hd in H1. injection H1 as <- <-.
  split.
  - intros Hl. unfold len in Hn, Hb. rewrite Hl in Hn, Hb.
    change (N.to_nat (N.of_nat 7 - 2)) with 5%nat in Hn.
    change (N.to_nat (N.of_nat 7 - 1)) with 6%nat in Hb.
    split; congruence.
  - intros Hl. unfold len in Hn. rewrite Hl in Hn.
    change (N.to_nat (N.of_nat 8 - 2)) with 6%nat in Hn. congruence.
Qed.

End GatewaySuccess.

Lemma verifyAge_postcondition_witness :
  exists abc publicInputs,
    _decodeProof (age_statement 0 0 5 77) = Ok (abc, publicInputs)
    /\ accept_all 60 abc publicInputs = ReturnedBool true
    /\ publicInputs !! 6%nat = Some 5.
Proof.
  destruct (verifyAge_postcondition accept_all gateway0 gateway_address stranger
              18 5 (age_statement 0 0 5 77) registry0
              {| VerifierV2.valid := true; VerifierV2.nullifier := 77;
                 VerifierV2.blindedCommitment := 555 |}
              (mark 5 77 registry0)
              [EventNullifierUsed 5 77 gateway_address; ProofVerified stranger 0 77 5])
    as (abc & inputs & in0 & H1 & _ & _ & _ & _ & _ & _ & H6 & H7 & _).
  - vm_compute. reflexivity.
  - exists abc, inputs. split; [exact H1|]. split; [exact H7|exact H6].
Defined.

Lemma verifyPassport_postcondition_witness :
  exists abc publicInputs,
    _decodeProof (passport_statement 0 0 0 77) = Ok (abc, publicInputs)
    /\ 5 <= len publicInputs.
Proof.
  destruct (verifyPassport_postcondition accept_all gateway0 gateway_address
              stranger 7 (passport_statement 0 0 0 77) registry0
              {| VerifierV2.valid := true; VerifierV2.nullifier := 77;
                 VerifierV2.blindedCommitment := 777 |} 0 18 0
              (mark 7 77 registry0)
              [EventNullifierUsed 7 77 gateway_address; ProofVerified stranger 1 77 7])
    as (abc & inputs & H1 & _ & H3 & _).
  - vm_compute. reflexivity.
  - exists abc, inputs. split; [exact H1|exact H3].
Defined.

Lemma verifyProofOnly_true_where_verifyAge_succeeds_witness :
  VerifierV2.verifyProofOnly accept_all 60 (age_statement 0 0 5 77) registry0
  = Ok (true, registry0, []).
Proof.
  apply (verifyProofOnly_true_where_verifyAge_succeeds accept_all gateway0
           gateway_address stranger 18 5 (age_statement 0 0 5 77) registry0
           {| VerifierV2.valid := true; VerifierV2.nullifier := 77;
              VerifierV2.blindedCommitment := 555 |}
           (mark 5 77 registry0)
           [EventNullifierUsed 5 77 gateway_address; ProofVerified stranger 0 77 5]).
  vm_compute. reflexivity.
Defined.

Lemma verifyAge_short_statement_overlap_witness :
  VerifierV2.nullifier
    {| VerifierV2.valid := true; VerifierV2.nullifier := 222;
       VerifierV2.blindedCommitment := 5 |}
  = RegistryV2.revocationRoot
      (RegistryV2.roots (run (Registry.updateRoots deployer 1000 111 222) registry0)).
Proof.
  eapply (verifyAge_short_statement_overlap accept_all gateway0 gateway_address
            stranger 18 5 (blob [18; 2026; 11; 2; 111; 222; 5])
            (run (Registry.updateRoots deployer 1000 111 222) registry0)
            _ _ _ _ [18; 2026; 11; 2; 111; 222; 5]).
  - vm_compute. reflexivity.
  - vm_compute. reflexivity.
  - reflexivity.
Defined.

(** * The age wrapper (MPassAgeVerifier) *)

Section AgeWrapper.

Import AgeVerifier.

Variable verifyProof : G16 -> list N -> bool.

Lemma age_after_keeps_used sender c s n :
  isNullifierUsed s n = true ->
  isNullifierUsed (after verifyProof sender c s) n = true.
Proof.
  unfold isNullifierUsed. intros Hused.
  destruct c as [commitment | p pubSignals]; cbn [after].
  - unfold registerCredential.
    by destruct (mget (registeredCredentials s) commitment).
  - unfold verifyAgeProof.
    destruct (mget (nullifierUsed s) (signal pubSignals 1)); [done|].
    destruct (verifyProof p pubSignals), (signal pubSignals 2 =? 1);
      cbn [nullifierUsed]; try done.
    destruct (N.eq_dec n (signal pubSignals 1)) as [-> | Hne].
    + apply mget_insert_eq.
    + by rewrite mget_insert_ne.
Qed.

Lemma age_after_registered sender c s commitment :
  isCredentialRegistered (after verifyProof sender c s) commitment
  = isCredentialRegistered s commitment
    || match c with
       | CRegisterCredential c' => commitment =? c'
       | CVerifyAgeProof _ _ => false
       end.
Proof.
  unfold isCredentialRegistered.
  destruct c as [c' | p pubSignals]; cbn [after].
  - unfold registerCredential.
    destruct (mget (registeredCredentials s) c') eqn:Hreg.
    + destruct (N.eqb_spec commitment c') as [-> | Hne].
      * by rewrite Hreg.
      * by rewrite orb_false_r.
    + cbn [registeredCredentials].
      destruct (N.eqb_spec commitment c') as [-> | Hne].
      * by rewrite mget_insert_eq, orb_true_r.
      * by rewrite mget_insert_ne, orb_false_r.
  - unfold verifyAgeProof.
    destruct (mget (nullifierUsed s) (signal pubSignals 1));
      [by rewrite orb_false_r|].
    destruct (verifyProof p pubSignals), (signal pubSignals 2 =? 1);
      cbn [registeredCredentials]; by rewrite orb_false_r.
Qed.

Lemma age_used_steps s s' n :
  steps verifyProof s s' ->
  isNullifierUsed s n = true -> isNullifierUsed s' n = true.
Proof.
  induction 1 as [|s1 s2 s3 Hstep _ IH]; [done|].
  intros Hused. apply IH. destruct Hstep as [sender c s1].
  by apply age_after_keeps_used.
Qed.

Lemma age_registered_steps s s' c :
  steps verifyProof s s' ->
  isCredentialRegistered s c = true -> isCredentialRegistered s' c = true.
Proof.
  induction 1 as [|s1 s2 s3 Hstep _ IH]; [done|].
  intros Hreg. apply IH. destruct Hstep as [sender c' s1].
  by rewrite age_after_registered, Hreg.
Qed.

(** X21. MPassAgeVerifier: once [verifyAgeProof] has returned [true] for
    a nullifier, every later [verifyAgeProof] carrying that nullifier
    reverts with "Nullifier already used", whatever calls came in
    between and whatever the other signals and the proof are. *)
Theorem age_nullifier_single_use s p pubSignals s1 ev s2 p' pubSignals' :
  verifyAgeProof verifyProof s p pubSignals = Ok (true, s1, ev) ->
  steps verifyProof s1 s2 ->
  signal pubSignals' 1 = signal pubSignals 1 ->
  verifyAgeProof verifyProof s2 p' pubSignals' = Revert NullifierAlreadyUsed.
Proof.
  intros Hcall Hsteps Hsame.
  assert (Hused : isNullifierUsed s1 (signal pubSignals 1) = true).
  { unfold verifyAgeProof in Hcall. unfold isNullifierUsed.
    destruct (mget (nullifierUsed s) (signal pubSignals 1)); [done|].
    destruct (verifyProof p pubSignals), (signal pubSignals 2 =? 1);
      try done.
    inversion Hcall; subst. cbn [nullifierUsed]. apply mget_insert_eq. }
  apply (age_used_steps _ _ _ Hsteps) in Hused.
  unfold isNullifierUsed in Hused.
  unfold verifyAgeProof. by rewrite Hsame, Hused.
Qed.

(** X22. MPassAgeVerifier: a call marks a nullifier used exactly when it
    is [verifyAgeProof], the Groth16 verifier accepts and the [ageValid]
    signal is 1; a nullifier once used stays used. In particular the
    write made for an accepted proof is rolled back when the later
    [ageValid] check reverts, and [registerCredential] never touches
    the nullifiers. *)
Theorem age_nullifier_used_exactly_when_accepted sender c s n :
  isNullifierUsed (after verifyProof sender c s) n
  = isNullifierUsed s n
    || match c with
       | CRegisterCredential _ => false
       | CVerifyAgeProof p pubSignals =>
           (n =? signal pubSignals 1) && verifyProof p pubSignals
           && (signal pubSignals 2 =? 1)
       end.
Proof.
  unfold isNullifierUsed.
  destruct c as [commitment | p pubSignals]; cbn [after].
  - unfold registerCredential.
    destruct (mget (registeredCredentials s) commitment); cbn;
      by rewrite orb_false_r.
  - unfold verifyAgeProof.
    destruct (mget (nullifierUsed s) (signal pubSignals 1)) eqn:Hused.
    + destruct (N.eqb_spec n (signal pubSignals 1)) as [-> | Hne].
      * by rewrite Hused.
      * by rewrite orb_false_r.
    + destruct (verifyProof p pubSignals), (N.eqb_spec (signal pubSignals 2) 1);
        cbn [nullifierUsed andb]; rewrite ?andb_false_r, ?orb_false_r; try done.
      destruct (N.eqb_spec n (signal pubSignals 1)) as [-> | Hne].
      * by rewrite mget_insert_eq, orb_true_r.
      * by rewrite mget_insert_ne, orb_false_r.
Qed.

(** X23. MPassAgeVerifier: a registered commitment stays registered over
    any sequence of calls, and registering it again reverts with
    "Already registered" for every caller. *)
Theorem age_registration_strict_and_permanent s s' commitment sender :
  isCredentialRegistered s commitment = true ->
  steps verifyProof s s' ->
  isCredentialRegistered s' commitment = true
  /\ registerCredential s' sender commitment = Revert AlreadyRegistered.
Proof.
  intros Hreg Hsteps.
  apply (age_registered_steps _ _ _ Hsteps) in Hreg.
  split; [done|]. unfold isCredentialRegistered in Hreg.
  unfold registerCredential. by rewrite Hreg.
Qed.

(** X24. MPassAgeVerifier: [verifyAgeProof] does not look at the
    credential registry. With a fresh nullifier, an accepted proof and
    [ageValid = 1] it returns [true], marks the nullifier, emits
    [NullifierConsumed] and [AgeVerified] and leaves the registry as it
    was, whether or not the commitment in signal 0 was ever registered. *)
Theorem age_accepts_without_registration s p pubSignals :
  isNullifierUsed s (signal pubSignals 1) = false ->
  verifyProof p pubSignals = true ->
  signal pubSignals 2 = 1 ->
  exists s',
    verifyAgeProof verifyProof s p pubSignals
    = Ok (true, s',
          [NullifierConsumed (signal pubSignals 1);
           AgeVerified (signal pubSignals 1) (signal pubSignals 6)
             (signal pubSignals 7)])
    /\ isNullifierUsed s' (signal pubSignals 1) = true
    /\ (forall n, n <> signal pubSignals 1 ->
          isNullifierUsed s' n = isNullifierUsed s n)
    /\ registeredCredentials s' = registeredCredentials s.
Proof.
  unfold isNullifierUsed. intros Hfresh Hvalid Hage.
  unfold verifyAgeProof. rewrite Hfresh, Hvalid, Hage.
  change (1 =? 1) with true.
  eexists. split; [reflexivity|]. cbn [nullifierUsed registeredCredentials].
  split; [apply mget_insert_eq|]. split; [|done].
  intros n Hn. by apply mget_insert_ne.
Qed.

End AgeWrapper.

Lemma age_nullifier_single_use_witness :
  AgeVerifier.verifyAgeProof (fun _ _ => true)
    {| AgeVerifier.nullifierUsed := <[5 := true]> ∅;
       AgeVerifier.registeredCredentials := <[9 := true]> ∅ |}
    {| pi_a := (0, 0); pi_b := ((0, 0), (0, 0)); pi_c := (0, 0) |} [4; 5; 1; 2026; 11; 2; 21; 0]
  = Revert NullifierAlreadyUsed.
Proof.
  apply (age_nullifier_single_use (fun _ _ => true)
           {| AgeVerifier.nullifierUsed := ∅;
              AgeVerifier.registeredCredentials := ∅ |}
           {| pi_a := (1, 2); pi_b := ((3, 4), (5, 6)); pi_c := (7, 8) |} [9; 5; 1; 2026; 11; 2; 18; 0]
           {| AgeVerifier.nullifierUsed := <[5 := true]> ∅;
              AgeVerifier.registeredCredentials := ∅ |}
           [AgeVerifier.NullifierConsumed 5; AgeVerifier.AgeVerified 5 18 0]).
  - reflexivity.
  - eapply rtc_l; [|apply rtc_refl].
    exact (AgeVerifier.step_call (fun _ _ => true) 3
             (AgeVerifier.CRegisterCredential 9)
             {| AgeVerifier.nullifierUsed := <[5 := true]> ∅;
                AgeVerifier.registeredCredentials := ∅ |}).
  - reflexivity.
Defined.

Lemma age_registration_strict_and_permanent_witness :
  AgeVerifier.isCredentialRegistered
    {| AgeVerifier.nullifierUsed := ∅;
       AgeVerifier.registeredCredentials := <[9 := true]> ∅ |} 9 = true
  /\ AgeVerifier.registerCredential
       {| AgeVerifier.nullifierUsed := ∅;
          AgeVerifier.registeredCredentials := <[9 := true]> ∅ |} 3 9
     = Revert AlreadyRegistered.
Proof.
  apply (age_registration_strict_and_permanent (fun _ _ => true)
           {| AgeVerifier.nullifierUsed := ∅;
              AgeVerifier.registeredCredentials := <[9 := true]> ∅ |}
           {| AgeVerifier.nullifierUsed := ∅;
              AgeVerifier.registeredCredentials := <[9 := true]> ∅ |} 9 3).
  - reflexivity.
  - apply rtc_refl.
Defined.

Lemma age_accepts_without_registration_witness :
  exists s',
    AgeVerifier.verifyAgeProof (fun _ _ => true)
      {| AgeVerifier.nullifierUsed := ∅;
         AgeVerifier.registeredCredentials := ∅ |}
      {| pi_a := (1, 2); pi_b := ((3, 4), (5, 6)); pi_c := (7, 8) |} [9; 5; 1; 2026; 11; 2; 18; 0]
    = Ok (true, s',
          [AgeVerifier.NullifierConsumed 5; AgeVerifier.AgeVerified 5 18 0])
    /\ AgeVerifier.registeredCredentials s' = ∅.
Proof.
  destruct (age_accepts_without_registration (fun _ _ => true)
              {| AgeVerifier.nullifierUsed := ∅;
                 AgeVerifier.registeredCredentials := ∅ |}
              {| pi_a := (1, 2); pi_b := ((3, 4), (5, 6)); pi_c := (7, 8) |}
              [9; 5; 1; 2026; 11; 2; 18; 0])
    as (s' & H1 & _ & _ & H4).
  - reflexivity.
  - reflexivity.
  - reflexivity.
  - exists s'. split; [exact H1|exact H4].
Defined.

(** * Further properties of the circuits *)

Section CircuitArithmetic.

Local Open Scope Z_scope.
Import Circuits.

Lemma Num2Bits_mod n x : Num2Bits n (x mod p) = Num2Bits n x.
Proof. unfold Num2Bits. by rewrite Z.mod_mod. Qed.

Lemma Num2Bits_Some_bound n x bits :
  Num2Bits n x = Some bits -> x mod p < 2 ^ Z.of_nat n.
Proof.
  intros Hsome.
  destruct (Z.lt_ge_cases (x mod p) (2 ^ Z.of_nat n)) as [|Hge]; [done|].
  pose proof (Z.mod_pos_bound x p p_pos) as Hb.
  rewrite <- Num2Bits_mod, Num2Bits_out_of_range in Hsome by lia. done.
Qed.

Lemma nth_bits n v : nth n (map (bit_of v) (seq 0 (S n))) 0 = bit_of v n.
Proof.
  rewrite (nth_indep _ 0 (bit_of v 0%nat))
    by (rewrite length_map, length_seq; lia).
  rewrite map_nth, seq_nth by lia. reflexivity.
Qed.

Lemma bit_top n v :
  0 <= v < 2 ^ Z.of_nat (S n) ->
  bit_of v n = if v <? 2 ^ Z.of_nat n then 0 else 1.
Proof.
  intros Hv. unfold bit_of. rewrite Z.testbit_spec' by lia.
  rewrite Nat2Z.inj_succ, Z.pow_succ_r in Hv by lia.
  assert (0 < 2 ^ Z.of_nat n) by (apply Z.pow_pos_nonneg; lia).
  destruct (Z.ltb_spec v (2 ^ Z.of_nat n)).
  - by rewrite Z.div_small by lia.
  - replace (v / 2 ^ Z.of_nat n) with 1; [reflexivity|].
    apply Z.div_unique with (r := v - 2 ^ Z.of_nat n); lia.
Qed.

(** [LessThan(n)] has the satisfying output 1 exactly when
    [in[0] + 2^n - in[1]], as a field element, is below [2^n]. *)
Lemma LessThan_one n a b :
  2 ^ Z.of_nat (S n) < p ->
  LessThan n a b = Some 1 <-> (a + 2 ^ Z.of_nat n - b) mod p < 2 ^ Z.of_nat n.
Proof.
  intros Hp. unfold LessThan.
  set (x := a + 2 ^ Z.of_nat n - b).
  pose proof (Z.mod_pos_bound x p p_pos) as Hb.
  assert (2 * 2 ^ Z.of_nat n = 2 ^ Z.of_nat (S n)) as Hpow
    by (rewrite Nat2Z.inj_succ, Z.pow_succ_r by lia; reflexivity).
  assert (0 < 2 ^ Z.of_nat n) by (apply Z.pow_pos_nonneg; lia).
  destruct (Z.lt_ge_cases (x mod p) (2 ^ Z.of_nat (S n))) as [Hlt|Hge].
  - rewrite <- Num2Bits_mod, Num2Bits_in_range by lia.
    rewrite nth_bits, bit_top by lia.
    destruct (Z.ltb_spec (x mod p) (2 ^ Z.of_nat n)); split; try done; lia.
  - rewrite <- Num2Bits_mod, Num2Bits_out_of_range by lia.
    split; [done|lia].
Qed.

(** On operands whose difference fits, [LessThan(n)] compares. *)
Lemma LessThan_small n a b :
  2 ^ Z.of_nat (S n) < p ->
  0 <= a + 2 ^ Z.of_nat n - b < 2 ^ Z.of_nat (S n) ->
  LessThan n a b = Some (if a <? b then 1 else 0).
Proof.
  intros Hp Hx. unfold LessThan.
  rewrite Num2Bits_in_range by lia.
  rewrite nth_bits, bit_top by lia.
  destruct (Z.ltb_spec (a + 2 ^ Z.of_nat n - b) (2 ^ Z.of_nat n)),
           (Z.ltb_spec a b); try lia; reflexivity.
Qed.

Lemma IsEqual_small a b :
  - p < b - a < p -> IsEqual a b = if a =? b then 1 else 0.
Proof.
  intros Hab. unfold IsEqual, IsZero.
  destruct (Z.eqb_spec a b) as [-> | Hne].
  - by rewrite Z.sub_diag.
  - destruct (Z.eqb_spec ((b - a) mod p) 0) as [Hz|]; [|done].
    apply Z.mod_divide in Hz; [|unfold p; lia].
    destruct Hz as [k Hk]. assert (k = 0) by (unfold p in *; nia). lia.
Qed.

(** X25. age_proof_v2.circom, steps 5 and 6 (and the same steps of the
    first age circuit): with months, days and the threshold in eight
    bits and years below [2^64], the age comparison has the satisfying
    output 1 exactly when the calendar age lies between the threshold
    and the threshold plus 255. An age below the threshold has no
    accepting assignment, and neither has one more than 255 above it:
    [GreaterEqThan(8)] range-checks the difference to nine bits. *)
Theorem AgeProofV2_ageCheck_accepts
    birthYear birthMonth birthDay minAge currentYear currentMonth currentDay :
  0 <= birthMonth < 256 -> 0 <= birthDay < 256 ->
  0 <= currentMonth < 256 -> 0 <= currentDay < 256 ->
  0 <= minAge < 256 ->
  0 <= birthYear < 2 ^ 64 -> 0 <= currentYear < 2 ^ 64 ->
  AgeProofV2_ageCheck birthYear birthMonth birthDay minAge
    currentYear currentMonth currentDay = Some 1
  <-> minAge
      <= calendar_age birthYear birthMonth birthDay
           currentYear currentMonth currentDay
      <= minAge + 255.
Proof.
  intros Hbm Hbd Hcm Hcd Hmin Hby Hcy.
  change (2 ^ 64) with 18446744073709551616 in *.
  assert (Hp9 : 2 ^ Z.of_nat 9 < p) by reflexivity.
  unfold AgeProofV2_ageCheck, calendar_age.
  rewrite (LessThan_small 8 currentMonth birthMonth)
    by (try exact Hp9; change (2 ^ Z.of_nat 8) with 256;
        change (2 ^ Z.of_nat 9) with 512; lia).
  rewrite (LessThan_small 8 currentDay birthDay)
    by (try exact Hp9; change (2 ^ Z.of_nat 8) with 256;
        change (2 ^ Z.of_nat 9) with 512; lia).
  cbv zeta. unfold GreaterEqThan. rewrite LessThan_one by exact Hp9.
  rewrite IsEqual_small by (unfold p; lia).
  change (2 ^ Z.of_nat 8) with 256.
  set (notPassed := (currentMonth <? birthMonth)
                    || ((currentMonth =? birthMonth) && (currentDay <? birthDay))).
  assert (Hbnp : ((if currentMonth <? birthMonth then 1 else 0)
                  + (if currentMonth =? birthMonth then 1 else 0)
                    * (if currentDay <? birthDay then 1 else 0)) mod p
                 = if notPassed then 1 else 0).
  { unfold notPassed.
    destruct (Z.ltb_spec currentMonth birthMonth),
             (Z.eqb_spec currentMonth birthMonth),
             (Z.ltb_spec currentDay birthDay); try lia; reflexivity. }
  rewrite Hbnp.
  set (bnp := if notPassed then 1 else 0).
  assert (Hb : 0 <= bnp <= 1) by (unfold bnp; destruct notPassed; lia).
  set (d := minAge + 255 - (currentYear - birthYear - bnp)).
  assert (Hd : (minAge + 256
                - (((currentYear - birthYear) mod p - bnp) mod p + 1)) mod p
               = d mod p).
  { rewrite Zminus_mod_idemp_l.
    replace (minAge + 256 - ((currentYear - birthYear - bnp) mod p + 1))
      with (minAge + 255 - (currentYear - birthYear - bnp) mod p) by lia.
    rewrite Zminus_mod_idemp_r. reflexivity. }
  rewrite Hd.
  destruct (Z.lt_ge_cases d 0) as [Hneg | Hpos].
  - replace (d mod p) with (d + p)
      by (apply Z.mod_unique_pos with (q := -1); unfold p; lia).
    unfold d, p in *. lia.
  - rewrite Z.mod_small by (unfold d, p in *; lia).
    unfold d in *. lia.
Qed.

End CircuitArithmetic.

Lemma AgeProofV2_ageCheck_accepts_witness :
  Circuits.AgeProofV2_ageCheck 2008 11 3 18 2026 11 2 = Some 0%Z
  /\ Circuits.AgeProofV2_ageCheck 2008 11 2 18 2026 11 2 = Some 1%Z.
Proof.
  split.
  - vm_compute. reflexivity.
  - apply (AgeProofV2_ageCheck_accepts 2008 11 2 18 2026 11 2);
      vm_compute; split; discriminate || reflexivity.
Defined.

Section CircuitTemplates.

Local Open Scope Z_scope.
Import Circuits.

Variable Poseidon : list Z -> Z.

Lemma levelHashes_nonbinary h pathElements pathIndices :
  Exists (fun i => (i * (1 - i)) mod p <> 0) pathIndices ->
  levelHashes Poseidon h pathElements pathIndices = None.
Proof.
  intros Hex. revert h pathElements.
  induction Hex as [i is_ Hi | i is_ _ IH]; intros h [|e es]; try reflexivity.
  - cbn [levelHashes]. by destruct (Z.eqb_spec ((i * (1 - i)) mod p) 0).
  - cbn [levelHashes]. destruct (_ =? 0); [apply IH|reflexivity].
Qed.

Lemma SparseMerkleTreeNonInclusion_bound
    levels key root siblings isOld0 oldKey oldValue v :
  SparseMerkleTreeNonInclusion Poseidon levels key root siblings
    isOld0 oldKey oldValue = Some v ->
  0 <= v < p /\ key mod p < 2 ^ Z.of_nat levels.
Proof.
  unfold SparseMerkleTreeNonInclusion.
  destruct (Num2Bits levels key) as [bits|] eqn:Hbits; [|done].
  apply Num2Bits_Some_bound in Hbits.
  destruct (MerkleTreeInclusionProof _ _ _ _ _); [|done].
  intros [= <-]. split; [apply Z.mod_pos_bound, p_pos|done].
Qed.

(** X26. merkle.circom, MerkleTreeVerifier: given the path of the leaf at
    position [index] (its bits, lowest first, as [pathIndices]) and one
    sibling per level, the template is satisfiable and [valid] is 1
    exactly when hashing the leaf up along that position yields the
    claimed root in the field, and 0 otherwise; the order of the two
    hash inputs at each level is chosen by the index bit. *)
Theorem MerkleTreeVerifier_position levels leaf pathElements index root :
  0 <= index ->
  length pathElements = levels ->
  MerkleTreeVerifier Poseidon levels leaf pathElements
    (map (bit_of index) (seq 0 levels)) root
  = Some (if (root - root_along Poseidon leaf pathElements index) mod p =? 0
          then 1 else 0).
Proof.
  intros Hindex Hlen.
  unfold MerkleTreeVerifier, MerkleTreeInclusionProof.
  rewrite length_map, length_seq, Hlen, Nat.eqb_refl. cbn [andb].
  rewrite <- Hlen at 1. rewrite levelHashes_along by lia.
  by rewrite Z.shiftr_0_r.
Qed.

(** X27. merkle.circom, MerkleTreeInclusionProof: a path index that is
    not 0 or 1 in the field, at any level, leaves the template without a
    satisfying assignment, and with it [MerkleTreeVerifier] and
    [CredentialRegistryProof], whatever the other inputs are. *)
Theorem MerkleTreeInclusionProof_rejects_nonbinary
    levels leaf pathElements pathIndices :
  Exists (fun i => (i * (1 - i)) mod p <> 0) pathIndices ->
  MerkleTreeInclusionProof Poseidon levels leaf pathElements pathIndices = None
  /\ (forall root,
        MerkleTreeVerifier Poseidon levels leaf pathElements pathIndices root
        = None)
  /\ (forall revocationLevels registryRoot revocationRoot revocationSiblings
             isRevocationEmpty revocationOldKey revocationOldValue,
        CredentialRegistryProof Poseidon levels revocationLevels leaf
          registryRoot pathElements pathIndices revocationRoot
          revocationSiblings isRevocationEmpty revocationOldKey
          revocationOldValue = None).
Proof.
  intros Hex.
  assert (H : MerkleTreeInclusionProof Poseidon levels leaf pathElements
                pathIndices = None).
  { unfold MerkleTreeInclusionProof. destruct (_ && _); [|done].
    by apply levelHashes_nonbinary. }
  split; [exact H|]. split.
  - intros root. unfold MerkleTreeVerifier. by rewrite H.
  - intros. unfold CredentialRegistryProof, MerkleTreeVerifier. by rewrite H.
Qed.

(** X28. merkle.circom, CredentialRegistryProof: the combined [valid] is
    1 exactly when the registry inclusion check and the revocation
    non-inclusion check are both satisfiable with output 1. *)
Theorem CredentialRegistryProof_both registryLevels revocationLevels
    credentialHash registryRoot registryPath registryIndices
    revocationRoot revocationSiblings isRevocationEmpty
    revocationOldKey revocationOldValue :
  CredentialRegistryProof Poseidon registryLevels revocationLevels
    credentialHash registryRoot registryPath registryIndices revocationRoot
    revocationSiblings isRevocationEmpty revocationOldKey revocationOldValue
  = Some 1
  <-> MerkleTreeVerifier Poseidon registryLevels credentialHash registryPath
        registryIndices registryRoot = Some 1
      /\ SparseMerkleTreeNonInclusion Poseidon revocationLevels credentialHash
           revocationRoot revocationSiblings isRevocationEmpty
           revocationOldKey revocationOldValue = Some 1.
Proof.
  unfold CredentialRegistryProof.
  destruct (MerkleTreeVerifier _ _ _ _ _ _) as [rv|] eqn:Hrv;
    [|split; [done|intros [? _]; done]].
  destruct (SparseMerkleTreeNonInclusion _ _ _ _ _ _ _ _) as [nv|] eqn:Hnv;
    [|split; [done|intros [_ ?]; done]].
  apply SparseMerkleTreeNonInclusion_bound in Hnv as [Hnv _].
  assert (Hbin : rv = 0 \/ rv = 1).
  { unfold MerkleTreeVerifier in Hrv.
    destruct (MerkleTreeInclusionProof _ _ _ _ _); [|done].
    injection Hrv as <-. apply IsEqual_cases. }
  split.
  - intros [= Hv]. destruct Hbin as [-> | ->].
    + rewrite Z.mul_0_l in Hv. done.
    + rewrite Z.mul_1_l, Z.mod_small in Hv by lia. by subst.
  - intros [[= ->] [= ->]]. reflexivity.
Qed.

(** X29. age_proof_v2.circom, AgeProofV2: every satisfying assignment has
    [ageValid = 1], the nullifier and the blinded commitment derived
    from the credential commitment [Poseidon(birthYear, birthMonth,
    birthDay, secret)], both tree checks and the age comparison at 1,
    and a credential commitment that, as a field element, is below
    [2^revocationLevels]: the commitment is the key of the revocation
    tree, and the key is range-checked to [revocationLevels] bits. *)
Theorem AgeProofV2_outputs registryLevels revocationLevels
    secret birthYear birthMonth birthDay blindingFactor
    registryPathElements registryPathIndices revocationSiblings
    isRevocationEmpty revocationOldKey revocationOldValue
    minAge currentYear currentMonth currentDay
    registryRoot revocationRoot eventId out :
  AgeProofV2 Poseidon registryLevels revocationLevels
    secret birthYear birthMonth birthDay blindingFactor
    registryPathElements registryPathIndices revocationSiblings
    isRevocationEmpty revocationOldKey revocationOldValue
    minAge currentYear currentMonth currentDay
    registryRoot revocationRoot eventId = Some out ->
  out = (AgeProofV2_nullifier Poseidon secret
           (Poseidon [birthYear; birthMonth; birthDay; secret]) eventId,
         BlindedCommitment Poseidon
           (Poseidon [birthYear; birthMonth; birthDay; secret]) blindingFactor,
         1)
  /\ MerkleTreeVerifier Poseidon registryLevels
       (Poseidon [birthYear; birthMonth; birthDay; secret])
       registryPathElements registryPathIndices registryRoot = Some 1
  /\ SparseMerkleTreeNonInclusion Poseidon revocationLevels
       (Poseidon [birthYear; birthMonth; birthDay; secret])
       revocationRoot revocationSiblings isRevocationEmpty
       revocationOldKey revocationOldValue = Some 1
  /\ AgeProofV2_ageCheck birthYear birthMonth birthDay minAge
       currentYear currentMonth currentDay = Some 1
  /\ Poseidon [birthYear; birthMonth; birthDay; secret] mod p
     < 2 ^ Z.of_nat revocationLevels.
Proof.
  unfold AgeProofV2. cbv zeta.
  destruct (MerkleTreeVerifier _ _ _ _ _ _) as [rv|]; [|done].
  destruct (Z.eqb_spec rv 1) as [-> |]; [|done]. cbn [negb].
  destruct (SparseMerkleTreeNonInclusion _ _ _ _ _ _ _ _) as [nv|] eqn:Hnv;
    [|done].
  destruct (Z.eqb_spec nv 1) as [-> |]; [|done]. cbn [negb].
  destruct (AgeProofV2_ageCheck _ _ _ _ _ _ _) as [av|]; [|done].
  destruct (Z.eqb_spec av 1) as [-> |]; [|done]. cbn [negb].
  intros [= <-].
  apply SparseMerkleTreeNonInclusion_bound in Hnv as [_ Hkey].
  done.
Qed.

(** X30. merkle.circom, SparseMerkleTreeNonInclusion: [isOld0] is not
    constrained to 0 or 1. For a key in range that differs from
    [oldKey], any flag value satisfies the non-membership condition, and
    the leaf that is hashed up is [(1 - isOld0) * Poseidon(oldKey,
    oldValue)]: [valid] is the root check alone on that leaf, so a flag
    with [(1 - isOld0) * Poseidon(oldKey, oldValue) = leaf] in the field
    makes the template accept the root of a tree holding [leaf] at the
    key's position, without a preimage of [leaf]. *)
Theorem non_inclusion_flag_unconstrained
    levels key root siblings isOld0 oldKey oldValue leaf :
  0 <= key < 2 ^ Z.of_nat levels -> key < p ->
  length siblings = levels ->
  IsEqual key oldKey = 0 ->
  ((1 - isOld0) * Poseidon [oldKey; oldValue]) mod p = leaf mod p ->
  SparseMerkleTreeNonInclusion Poseidon levels key root siblings
    isOld0 oldKey oldValue
  = Some (IsEqual (root_along Poseidon (leaf mod p) siblings key) root).
Proof.
  intros Hkey Hp Hlen Hdiff Hleaf. unfold SparseMerkleTreeNonInclusion.
  rewrite Num2Bits_in_range by lia.
  unfold MerkleTreeInclusionProof.
  rewrite length_map, length_seq, Hlen, Nat.eqb_refl. cbn [andb].
  rewrite <- Hlen at 1. rewrite levelHashes_along by lia.
  rewrite Z.shiftr_0_r, Hdiff. f_equal.
  assert (Hmux : Mux1 (Poseidon [oldKey; oldValue]) 0 isOld0 = leaf mod p).
  { unfold Mux1. rewrite <- Hleaf. f_equal. lia. }
  rewrite Hmux.
  change ((1 - 0) mod p) with 1.
  replace (isOld0 + (1 - isOld0) * 1) with 1 by lia.
  change (1 mod p) with 1. rewrite Z.mul_1_r.
  destruct (IsEqual_cases (root_along Poseidon (leaf mod p) siblings key) root)
    as [-> | ->]; reflexivity.
Qed.

End CircuitTemplates.

Lemma MerkleTreeVerifier_position_witness :
  Circuits.MerkleTreeVerifier sample_hash 3 4%Z [1; 2; 3]%Z [1; 0; 1]%Z 3%Z
  = Some 1%Z.
Proof.
  exact (MerkleTreeVerifier_position sample_hash 3 4 [1; 2; 3]%Z 5 3
           ltac:(discriminate) eq_refl).
Defined.

Lemma MerkleTreeInclusionProof_rejects_nonbinary_witness :
  Circuits.MerkleTreeInclusionProof sample_hash 3 4%Z [1; 2; 3]%Z [1; 2; 1]%Z
  = None.
Proof.
  apply (MerkleTreeInclusionProof_rejects_nonbinary sample_hash 3 4
           [1; 2; 3]%Z [1; 2; 1]%Z).
  apply Exists_cons_tl, Exists_cons_hd. vm_compute. discriminate.
Defined.

Lemma AgeProofV2_outputs_witness :
  Circuits.AgeProofV2_ageCheck 2000 6 15 18 2026 11 2 = Some 1%Z
  /\ (sample_hash [2000; 6; 15; 42] mod Circuits.p < 2 ^ Z.of_nat 3)%Z.
Proof.
  destruct (AgeProofV2_outputs sample_hash 2 3 42 2000 6 15 9
              [1; 2]%Z [0; 1]%Z [0; 0; 0]%Z 1 0 0 18 2026 11 2 3 1 7
              (1, 6, 1)%Z)
    as (_ & _ & _ & H4 & H5).
  - vm_compute. reflexivity.
  - split; [exact H4|exact H5].
Defined.

Lemma non_inclusion_flag_unconstrained_witness :
  sample_hash [2; 1]%Z = 6%Z
  /\ Circuits.root_along sample_hash 6 [0; 0; 0]%Z 2 = 7%Z
  /\ Circuits.SparseMerkleTreeNonInclusion sample_hash 3 2 7 [0; 0; 0]%Z
       (-5) 5 1
     = Some 1%Z.
Proof.
  split; [reflexivity|]. split; [reflexivity|].
  rewrite (non_inclusion_flag_unconstrained sample_hash 3 2 7 [0; 0; 0]%Z
             (-5) 5 1 6).
  - vm_compute. reflexivity.
  - vm_compute. split; discriminate || reflexivity.
  - vm_compute. reflexivity.
  - reflexivity.
  - vm_compute. reflexivity.
  - vm_compute. reflexivity.
Defined.
